(** * Number Volume Space: the math engine of [src/App.tsx]

    A shallow embedding of the pure functions of the TypeScript source
    ([waveLeft], [getSplit], the sieve tables, [getFactorization],
    [isTransparent], [isColorless], [getColorInfo] and the prime-bending
    fields of [selectedDetail]) together with the properties stated about
    them.

    Conventions.  A JavaScript number that holds an integer is a [Z].  The
    two places where the source can produce a non-integer are kept explicit:
    a table read outside its bounds yields [undefined] (an [option], [None]),
    and arithmetic on [undefined] yields [NaN] (type [number] below).  The
    one statement of the engine that can throw, the array destructuring in
    [getColorInfo], returns a [completion]. *)

From Stdlib Require Import ZArith Znumtheory Lia Bool QArith Qround.
From stdpp Require Import base numbers option list strings gmap fin_maps.

Local Open Scope Z_scope.

(** ** JavaScript values *)

Module Js.

(** The numbers the engine computes with: integers, or [NaN] once an
    [undefined] table entry has entered the arithmetic. *)
Inductive number : Type :=
| Num (z : Z)
| NaN.

(** [ToNumber]: [undefined] converts to [NaN]. *)
Definition of_lookup (o : option Z) : number :=
  match o with
  | Some z => Num z
  | None => NaN
  end.

Definition lift2 (f : Z → Z → Z) (a b : number) : number :=
  match a, b with
  | Num x, Num y => Num (f x y)
  | _, _ => NaN
  end.

Definition add : number → number → number := lift2 Z.add.
Definition sub : number → number → number := lift2 Z.sub.
(** [Math.max] and [Math.min] return [NaN] as soon as one argument is. *)
Definition max : number → number → number := lift2 Z.max.
Definition min : number → number → number := lift2 Z.min.

Definition abs (a : number) : number :=
  match a with
  | Num x => Num (Z.abs x)
  | NaN => NaN
  end.

(** [a % b], the truncated remainder; [NaN] for a zero divisor. *)
Definition rem (a b : number) : number :=
  match a, b with
  | Num x, Num y => if y =? 0 then NaN else Num (Z.rem x y)
  | _, _ => NaN
  end.

(** Strict equality [a === b] on numbers: [NaN] equals nothing. *)
Definition strict_eq (a b : number) : bool :=
  match a, b with
  | Num x, Num y => x =? y
  | _, _ => false
  end.

(** Reading [arr[i]] for a number [i] that holds an integer: [undefined]
    below zero and past the end. *)
Definition index {A : Type} (arr : list A) (i : Z) : option A :=
  if i <? 0 then None else arr !! Z.to_nat i.

(** Truthiness of a possibly [undefined] boolean. *)
Definition truthy (o : option bool) : bool :=
  match o with
  | Some b => b
  | None => false
  end.

(** The errors the engine can raise. *)
Inductive error : Type :=
| TypeError.

(** Outcome of a function body: a returned value or a thrown error. *)
Inductive completion (A : Type) : Type :=
| Return (a : A)
| Throw (e : error).
Global Arguments Return {A} a.
Global Arguments Throw {A} e.

End Js.

Import Js.

(** ** Constants *)

Definition MAX_N : Z := 1680.
Definition WAVES : list Z := [2; 3; 5; 7].

(** ** Wave decomposition *)

(** [waveLeft(n, k)]: [m = Math.abs(n) % (2 * k)], result
    [k - Math.min(m, 2 * k - m)].  The JavaScript [%] is the truncated
    remainder, [Z.rem]. *)
Definition waveLeft (n k : Z) : Z :=
  let m := Z.rem (Z.abs n) (2 * k) in
  k - Z.min m (2 * k - m).

Record LR : Type := mkLR { lr_L : number; lr_R : number }.

Record Split : Type := mkSplit {
  L : number;
  R : number;
  orthogonal : list LR;
  baseL : Z;
  w2 : Z;
  w3 : Z;
  w5 : Z;
  w7 : Z
}.

(** The table [[2, 1, 0, -2, -1, -0]]; the last entry is the float [-0],
    which behaves as [0] in the sums and under [Math.abs]. *)
Definition offsets : list Z := [2; 1; 0; -2; -1; 0].

Definition getSplit (n dimension : Z) : Split :=
  let w2 := waveLeft n 2 in
  let w3 := waveLeft n 3 in
  let w5 := waveLeft n 5 in
  let w7 := waveLeft n 7 in
  let baseL := w3 + w5 + w7 in
  let off := of_lookup (index offsets dimension) in
  let L :=
    if dimension <? 3 then add (Num baseL) off
    else sub (Num 17) (add (Num baseL) (abs off)) in
  let R := sub (Num 17) L in
  let orthogonal :=
    [ mkLR L R;
      mkLR (max (Num 0) (sub L (Num 1))) (min (Num 17) (add R (Num 1)));
      mkLR (max (Num 0) (sub L (Num 2))) (min (Num 17) (add R (Num 2)));
      mkLR R L;
      mkLR (min (Num 17) (add R (Num 1))) (max (Num 0) (sub L (Num 1)));
      mkLR (min (Num 17) (add R (Num 2))) (max (Num 0) (sub L (Num 2))) ] in
  mkSplit L R orthogonal baseL w2 w3 w5 w7.

(** ** Sieve tables *)

(** Inner loop of the sieve,
    [for (let j = i * i; j <= MAX_N; j += i) p[j] = false].  Every write is
    inside the array, since [j <= MAX_N]. *)
Fixpoint sieve_mark (fuel : nat) (i j : Z) (p : list bool) : option (list bool) :=
  match fuel with
  | O => None
  | S fuel' =>
      if j <=? MAX_N
      then sieve_mark fuel' i (j + i) (<[Z.to_nat j := false]> p)
      else Some p
  end.

(** Outer loop, [for (let i = 2; i * i <= MAX_N; i++) if (p[i]) ...]. *)
Fixpoint sieve_loop (fuel : nat) (i : Z) (p : list bool) : option (list bool) :=
  match fuel with
  | O => None
  | S fuel' =>
      if i * i <=? MAX_N then
        p' ← (if truthy (index p i)
              then sieve_mark (Z.to_nat MAX_N) i (i * i) p
              else Some p);
        sieve_loop fuel' (i + 1) p'
      else Some p
  end.

(** The body of the [IS_PRIME] initialiser. *)
Definition sieve : option (list bool) :=
  let p := replicate (Z.to_nat (MAX_N + 1)) true in
  let p := <[0%nat := false]> (<[1%nat := false]> p) in
  sieve_loop (Z.to_nat MAX_N) 2 p.

(** The table is built once, when the module is loaded. *)
Definition IS_PRIME : list bool := Eval vm_compute in default [] sieve.

(** The body of the [PRIME_COUNT] initialiser: a counted loop over
    [i = 1 .. MAX_N] with [c[i] = c[i - 1] + (IS_PRIME[i] ? 1 : 0)]. *)
Definition prime_count_step (c : list Z) (i : Z) : list Z :=
  <[Z.to_nat i := c !!! Z.to_nat (i - 1) + (if truthy (index IS_PRIME i) then 1 else 0)]> c.

Definition prime_count_table : list Z :=
  foldl prime_count_step (replicate (Z.to_nat (MAX_N + 1)) 0) (seqZ 1 MAX_N).

Definition PRIME_COUNT : list Z := Eval vm_compute in prime_count_table.

(** ** Prime powers *)

(** [while (m % p === 0) m /= p].  The division is exact: it is guarded by
    [m % p === 0]. *)
Fixpoint strip_factor (fuel : nat) (p m : Z) : option Z :=
  match fuel with
  | O => None
  | S fuel' =>
      if Z.rem m p =? 0 then strip_factor fuel' p (m / p) else Some m
  end.

(** [for (let p = 2; p <= abs; p++) { ... }] of [isPrimePower]. *)
Fixpoint isPrimePower_from (fuel : nat) (abs p : Z) : option bool :=
  match fuel with
  | O => None
  | S fuel' =>
      if p <=? abs then
        if negb (truthy (index IS_PRIME p)) then isPrimePower_from fuel' abs (p + 1)
        else if negb (Z.rem abs p =? 0) then isPrimePower_from fuel' abs (p + 1)
        else m ← strip_factor (Z.to_nat abs) p abs; Some (m =? 1)
      else Some false
  end.

Definition isPrimePower_run (abs : Z) : option bool :=
  if abs <? 2 then Some false else isPrimePower_from (Z.to_nat abs) abs 2.

Definition isPrimePower (abs : Z) : bool := default false (isPrimePower_run abs).

(** ** Factorization *)

(** [f[p] = (f[p] || 0) + 1] on the object [f]. *)
Definition bump (p : Z) (f : gmap Z Z) : gmap Z Z :=
  let old := match f !! p with
             | Some e => if e =? 0 then 0 else e
             | None => 0
             end in
  <[p := old + 1]> f.

(** [while (m % p === 0) { f[p] = (f[p] || 0) + 1; m /= p; }] *)
Fixpoint divide_out (fuel : nat) (p : Z) (f : gmap Z Z) (m : Z) : option (gmap Z Z * Z) :=
  match fuel with
  | O => None
  | S fuel' =>
      if Z.rem m p =? 0 then divide_out fuel' p (bump p f) (m / p) else Some (f, m)
  end.

(** [for (let p = 2; p * p <= m; p++) while ...] *)
Fixpoint trial_loop (fuel : nat) (p : Z) (f : gmap Z Z) (m : Z) : option (gmap Z Z * Z) :=
  match fuel with
  | O => None
  | S fuel' =>
      if p * p <=? m then
        '(f', m') ← divide_out (Z.to_nat m) p f m;
        trial_loop fuel' (p + 1) f' m'
      else Some (f, m)
  end.

Definition getFactorization_run (n : Z) : option (gmap Z Z) :=
  let abs := Z.abs n in
  if abs <? 2 then Some ∅
  else
    '(f, m) ← trial_loop (Z.to_nat abs) 2 ∅ abs;
    Some (if 1 <? m then bump m f else f).

Definition getFactorization (n : Z) : gmap Z Z := default ∅ (getFactorization_run n).

(** ** Transparency *)

(** [abs > 1 && PRIME_COUNT[abs] % 2 === 1]; past the end of the table the
    read is [undefined], the remainder [NaN] and the comparison false. *)
Definition isTransparent (n : Z) : bool :=
  let abs := Z.abs n in
  (1 <? abs) && strict_eq (rem (of_lookup (index PRIME_COUNT abs)) (Num 2)) (Num 1).

(** ** Colors *)

Local Open Scope string_scope.

Record ColorInfo : Type := mkColor {
  label : string;
  bg : string;
  text : string;
  glow : string
}.

Definition COLOR_MAP : list ColorInfo :=
  [ mkColor "Zero" "#0D0D1A" "#4A4A6A" EmptyString;
    mkColor "One" "#0F0F1F" "#3A3A5A" EmptyString;
    mkColor "Prime" "#0A0A12" "#5A5A72" "rgba(150,150,200,0.15)";
    mkColor "PrimePow" "#0C0C18" "#4A4A62" "rgba(120,120,180,0.1)";
    mkColor "Colorless" "#08080C" "#3A3A4A" EmptyString;
    mkColor "Blue" "#001E48" "#60B4FF" "rgba(60,140,255,0.4)";
    mkColor "Yellow" "#3A2F00" "#FFE040" "rgba(255,220,0,0.4)";
    mkColor "Red" "#3A0008" "#FF7080" "rgba(255,60,80,0.4)";
    mkColor "Green" "#003D20" "#80FFB0" "rgba(0,255,100,0.3)";
    mkColor "Purple" "#25004A" "#D090FF" "rgba(160,80,255,0.35)";
    mkColor "Orange" "#4A2000" "#FFAA60" "rgba(255,140,0,0.35)";
    mkColor "Brown" "#3E1A0A" "#D7A080" "rgba(180,100,40,0.3)";
    mkColor "Silver" "#404050" "#D0D0E0" "rgba(192,192,220,0.25)";
    mkColor "Gold" "#7A6000" "#FFE57F" "rgba(255,215,0,0.4)";
    mkColor "Golden Brown" "#7C5800" "#FFE082" "rgba(255,200,0,0.3)";
    mkColor "Composite" "#141420" "#606080" EmptyString ].

Local Close Scope string_scope.

(** [Object.keys(factors).map(Number)] and [Object.values(factors)].  The
    order of the keys is only observed through [keys[0]] of a one-element
    array. *)
Definition Object_keys (factors : gmap Z Z) : list Z := (map_to_list factors).*1.
Definition Object_values (factors : gmap Z Z) : list Z := (map_to_list factors).*2.

(** The block [if (keys.length === 1) { ... }] of [isColorless]: [Some b]
    when it returns [b], [None] when control falls out of it. *)
Definition prime_power_rule (factors : gmap Z Z) (keys : list Z) : option bool :=
  if (length keys =? 1)%nat then
    match keys with
    | p :: _ =>
        match factors !! p with
        | Some q =>
            if truthy (index IS_PRIME q) && (Z.rem q 2 =? 0) then Some false
            else if truthy (index IS_PRIME q) && negb (Z.rem q 2 =? 0) then Some true
            else None
        | None => None
        end
    | [] => None
    end
  else None.

Definition isColorless (n : Z) : bool :=
  let abs := Z.abs n in
  if (abs <? 2) || truthy (index IS_PRIME abs) then false
  else if (abs =? 2) || (abs =? 3) || (abs =? 5) || (abs =? 7) then false
  else if Z.rem abs 2 =? 0 then false
  else
    let factors := getFactorization abs in
    let keys := Object_keys factors in
    let totalFactors := foldl Z.add 0 (Object_values factors) in
    match prime_power_rule factors keys with
    | Some b => b
    | None =>
        if totalFactors =? 2
        then (if (length keys =? 2)%nat then true else false)
        else false
    end.

(** Rows of [shifts]: the indices of the colors playing the roles
    [c2], [c3], [c7] in each dimension. *)
Definition shifts : list (Z * Z * Z) :=
  [ (5, 6, 7); (6, 7, 5); (7, 5, 6); (5, 7, 6); (6, 5, 7); (7, 6, 5) ].

(** The [if (isNeg) { ... } else { ... }] block of [getColorInfo]: the index
    it returns, or [None] when no branch fires. *)
Definition combination_rule (isNeg b2 b3 b7 : bool) (c2 c3 c7 : Z) : option Z :=
  let cGreen := 8 in
  let cPurple := 9 in
  let cOrange := 10 in
  let cBrown := 11 in
  if isNeg then
    if b2 && b3 && b7 then Some cBrown
    else if b3 && b7 then Some c2
    else if b2 && b3 then Some c7
    else if b2 && b7 then Some c3
    else if b2 then Some cOrange
    else if b3 then Some cPurple
    else if b7 then Some cGreen
    else None
  else
    if b2 && b3 && b7 then Some cBrown
    else if b3 && b7 then Some cOrange
    else if b2 && b3 then Some cGreen
    else if b2 && b7 then Some cPurple
    else if b2 then Some c2
    else if b3 then Some c3
    else if b7 then Some c7
    else None.

(** [getColorInfo(n, dimension)].  [const [c2, c3, c7] = shifts[dimension]]
    throws a [TypeError] when the row is [undefined]. *)
Definition getColorInfo (n dimension : Z) : completion (option ColorInfo) :=
  let abs := Z.abs n in
  let isNeg := n <? 0 in
  if abs =? 0 then Return (index COLOR_MAP 0)
  else if abs =? 1 then Return (index COLOR_MAP 1)
  else
    match index shifts dimension with
    | None => Throw TypeError
    | Some (c2, c3, c7) =>
        if (Z.rem abs 2 =? 0) && (Z.rem abs 3 =? 0) && (Z.rem abs 5 =? 0) && (Z.rem abs 7 =? 0)
        then Return (index COLOR_MAP 14)
        else if (Z.rem abs 2 =? 0) && (Z.rem abs 5 =? 0) then Return (index COLOR_MAP 13)
        else if Z.rem abs 5 =? 0 then Return (index COLOR_MAP 12)
        else
          let b2 := Z.rem abs 2 =? 0 in
          let b3 := Z.rem abs 3 =? 0 in
          let b7 := Z.rem abs 7 =? 0 in
          match combination_rule isNeg b2 b3 b7 c2 c3 c7 with
          | Some c => Return (index COLOR_MAP c)
          | None =>
              if abs =? 2 then Return (index COLOR_MAP c2)
              else if abs =? 3 then Return (index COLOR_MAP c3)
              else if abs =? 7 then Return (index COLOR_MAP c7)
              else if isColorless n then Return (index COLOR_MAP 4)
              else if truthy (index IS_PRIME abs) then Return (index COLOR_MAP 2)
              else if isPrimePower abs then Return (index COLOR_MAP 3)
              else Return (index COLOR_MAP 15)
          end
    end.

(** ** Prime bending *)

(** The prime-bending fields of the record built by [selectedDetail]
    (the statements under the comment "Prime Bending (210 cycle)"), as a
    function of the selected number. *)
Record Bending : Type := mkBending {
  cyclePos : Z;
  bendingCounterpart : Z;
  isCorner : bool;
  bendingPair : option Z
}.

Definition quad_anchors : list Z := [11; 13; 17; 19; 191; 193; 197; 199].

Definition primeBending (selected : Z) : Bending :=
  let abs := Z.abs selected in
  let cyclePos := Z.rem abs 210 in
  let bendingCounterpart := Z.rem (210 - cyclePos) 210 in
  let isBendingPrime := existsb (Z.eqb cyclePos) quad_anchors in
  let bendingPair := if isBendingPrime then Some (210 - cyclePos) else None in
  mkBending cyclePos bendingCounterpart isBendingPrime bendingPair.

(** ** Reference notions

    The mathematical notions the tables and rules are compared with:
    primality is [Z.prime]. *)

#[global] Instance prime_decision (p : Z) : Decision (Z.prime p) :=
  match prime_dec p with
  | left H => left (proj2 (prime_alt p) H)
  | right H => right (λ H', H (proj1 (prime_alt p) H'))
  end.

(** The primes [p <= m], in increasing order; "the count of primes up to
    [m]" is the length of this list. *)
Definition primes_upto (m : Z) : list Z := filter Z.prime (seqZ 0 (m + 1)).

(** Primality by trial division up to the square root, used to check the
    sieve by evaluation. *)
Definition primeb (p : Z) : bool :=
  (1 <? p) && forallb (λ d, negb (p mod d =? 0)) (seqZ 2 (Z.sqrt p - 1)).

(** An odd number greater than one that is not prime. *)
Definition odd_composite (a : Z) : Prop :=
  1 < a ∧ Z.odd a = true ∧ ¬ Z.prime a.

(** [a = p ^ q] for a prime [p] and an odd prime exponent [q]. *)
Definition odd_prime_power (a : Z) : Prop :=
  ∃ p q, Z.prime p ∧ Z.prime q ∧ Z.odd q = true ∧ a = p ^ q.

(** [a] is the product of two distinct primes. *)
Definition two_distinct_primes (a : Z) : Prop :=
  ∃ p1 p2, Z.prime p1 ∧ Z.prime p2 ∧ p1 ≠ p2 ∧ a = p1 * p2.

(** The product of [p ^ e] over the entries of a factorization. *)
Definition factors_product (f : gmap Z Z) : Z :=
  map_fold (λ p e acc, p ^ e * acc) 1 f.

(** A factorization (possibly in progress): prime keys below [bound] with
    positive exponents. *)
Definition prime_keys_below (bound : Z) (f : gmap Z Z) : Prop :=
  ∀ r e, f !! r = Some e → Z.prime r ∧ 1 ≤ e ∧ r < bound.

Definition prime_keys (f : gmap Z Z) : Prop :=
  ∀ r e, f !! r = Some e → Z.prime r ∧ 1 ≤ e.

(** What trial division has established about the remaining cofactor. *)
Definition no_divisor_below (bound m : Z) : Prop :=
  ∀ d, 1 < d < bound → ¬ (d | m).

(** The largest integer a JavaScript number holds exactly together with all
    smaller ones, [Number.MAX_SAFE_INTEGER]. *)
Definition MAX_SAFE_INTEGER : Z := 2 ^ 53 - 1.

(** The label of the color a call returned, if it returned one. *)
Definition returned_label (r : completion (option ColorInfo)) : option string :=
  match r with
  | Return (Some c) => Some (label c)
  | _ => None
  end.

(** The dimensions the interface offers. *)
Definition valid_dimension (d : Z) : Prop := 0 ≤ d ≤ 5.

(** ** The polarity axis *)

(** [getPolarityAxis(n)]; transparency is asked of the magnitude. *)
Definition getPolarityAxis (n : Z) : string :=
  let abs := Z.abs n in
  if abs =? 0 then "ORIGIN"%string
  else
    let t := isTransparent abs in
    if Z.rem abs 2 =? 0 then (if t then "TOP (T)" else "BOTTOM (O)")%string
    else if 0 <=? n
         then (if t then "RIGHT+ (T)" else "LEFT+ (O)")%string
         else (if t then "LEFT− (T)" else "RIGHT− (O)")%string.

(** ** Sequencing of calls that may throw *)

#[global] Instance completion_ret : MRet completion := λ A a, Return a.

#[global] Instance completion_bind : MBind completion := λ A B k c,
  match c with
  | Return a => k a
  | Throw e => Throw e
  end.

(** [Array.from] and [Array.prototype.map] with a callback that may throw:
    the elements are visited in index order and the first error aborts the
    whole construction. *)
Fixpoint map_throwing {A B : Type} (f : A → completion B) (l : list A) : completion (list B) :=
  match l with
  | [] => Return []
  | x :: l' => y ← f x; ys ← map_throwing f l'; Return (y :: ys)
  end.

(** ** The precomputed cell tables *)

Module Cell.

(** The objects [{ n, L, R, orthogonal, ci, tr }]. *)
Record t : Type := mk {
  n : Z;
  L : number;
  R : number;
  orthogonal : list LR;
  ci : option ColorInfo;
  tr : bool
}.

End Cell.

(** The callback of [CELL_DATA] and [NEG_CELL_DATA]: [getSplit(n)] and
    [getColorInfo(n)] are called with their default dimension, 0. *)
Definition cell_of (n : Z) : completion Cell.t :=
  let s := getSplit n 0 in
  ci ← getColorInfo n 0;
  let tr := isTransparent n in
  Return (Cell.mk n (L s) (R s) (orthogonal s) ci tr).

(** [Array.from({ length: MAX_N + 1 }, (_, n) => ...)]. *)
Definition CELL_DATA : completion (list Cell.t) :=
  map_throwing cell_of (seqZ 0 (MAX_N + 1)).

(** [Array.from({ length: MAX_N }, (_, i) => { const n = -(i + 1); ... }).reverse()]. *)
Definition NEG_CELL_DATA : completion (list Cell.t) :=
  cells ← map_throwing (λ i, cell_of (- (i + 1))) (seqZ 0 MAX_N);
  Return (reverse cells).

(** [[...NEG_CELL_DATA, ...CELL_DATA]]; [CELL_DATA] is initialised first. *)
Definition ALL_DATA : completion (list Cell.t) :=
  pos ← CELL_DATA;
  neg ← NEG_CELL_DATA;
  Return (neg ++ pos).

(** The callback of [sourceData]: [{ ...d, L, R, orthogonal, ci }] with the
    split and the color recomputed for the current dimension; [n] and [tr]
    are kept. *)
Definition recompute (dimension : Z) (d : Cell.t) : completion Cell.t :=
  let s := getSplit (Cell.n d) dimension in
  ci ← getColorInfo (Cell.n d) dimension;
  Return (Cell.mk (Cell.n d) (L s) (R s) (orthogonal s) ci (Cell.tr d)).

Definition sourceData (showNeg : bool) (dimension : Z) : completion (list Cell.t) :=
  base ← (if showNeg then ALL_DATA else CELL_DATA);
  map_throwing (recompute dimension) base.

(** ** Pagination *)

Definition GRID_COLS : Z := 14.
Definition PAGE_SIZE : Z := GRID_COLS * 10.

(** [arr.slice(start, end)] for integer arguments: a negative argument
    counts from the end, and both are clamped to the array. *)
Definition slice {A : Type} (arr : list A) (start fin : Z) : list A :=
  let len := Z.of_nat (length arr) in
  let clamp i := if i <? 0 then Z.max (len + i) 0 else Z.min i len in
  let k := clamp start in
  let final := clamp fin in
  take (Z.to_nat (final - k)) (drop (Z.to_nat k) arr).

(** [Math.ceil(filteredData.length / PAGE_SIZE)].  The quotient is taken in
    the rationals: for lengths below [2 ^ 53] the rounding of the floating
    point division cannot move it across an integer. *)
Definition totalPages {A : Type} (filteredData : list A) : Z :=
  Qceiling (inject_Z (Z.of_nat (length filteredData)) / inject_Z PAGE_SIZE).

(** [filteredData.slice(page * PAGE_SIZE, (page + 1) * PAGE_SIZE)]. *)
Definition pageData {A : Type} (filteredData : list A) (page : Z) : list A :=
  slice filteredData (page * PAGE_SIZE) ((page + 1) * PAGE_SIZE).

(** ** The split histogram *)

#[global] Instance number_eq_dec : EqDecision number.
Proof. solve_decision. Defined.

#[global] Instance number_countable : Countable number :=
  inj_countable'
    (λ a, match a with Num z => Some z | NaN => None end)
    (λ o, match o with Some z => Num z | None => NaN end)
    (λ a, match a with Num z => eq_refl | NaN => eq_refl end).

(** [counts[key]++] on the array [counts]: the property named by the number
    [key] is read ([undefined] reads as [NaN]), incremented and written
    back; a key that is not yet a property of the array becomes one. *)
Definition increment (counts : gmap number number) (key : number) : gmap number number :=
  let old := match counts !! key with
             | Some c => c
             | None => NaN
             end in
  <[key := add old (Num 1)]> counts.

(** [new Array(18).fill(0)] followed by
    [filteredData.forEach((d) => counts[d.L]++)]. *)
Definition splitDist (filteredData : list Cell.t) : gmap number number :=
  let counts := list_to_map ((λ i, (Num i, Num 0)) <$> seqZ 0 18) in
  foldl (λ counts d, increment counts (Cell.L d)) counts filteredData.

(** ** The detail panel *)

Module Detail.

Record wave : Type := mkWave { k : Z; left : Z; right : Z }.

(** The object returned by the [selectedDetail] memo. *)
Record t : Type := mk {
  n : Z;
  abs : Z;
  L : number;
  R : number;
  orthogonal : list LR;
  baseL : Z;
  ci : option ColorInfo;
  tr : bool;
  factors : gmap Z Z;
  axis : string;
  waveBreakdown : list wave;
  isPrime : option bool;
  isCorner : bool;
  cyclePos : Z;
  bendingCounterpart : Z;
  bendingPair : option Z
}.

End Detail.

(** [selectedDetail]: [null] when nothing is selected. *)
Definition selectedDetail (selected : option Z) (dimension : Z) : completion (option Detail.t) :=
  match selected with
  | None => Return None
  | Some selected =>
      let abs := Z.abs selected in
      let s := getSplit selected dimension in
      ci ← getColorInfo selected dimension;
      let tr := isTransparent selected in
      let factors := getFactorization selected in
      let axis := getPolarityAxis selected in
      let waveBreakdown :=
        [ Detail.mkWave 2 (w2 s) (2 - w2 s);
          Detail.mkWave 3 (w3 s) (3 - w3 s);
          Detail.mkWave 5 (w5 s) (5 - w5 s);
          Detail.mkWave 7 (w7 s) (7 - w7 s) ] in
      let isPrime := index IS_PRIME abs in
      let b := primeBending selected in
      Return (Some (Detail.mk selected abs (L s) (R s) (orthogonal s) (baseL s) ci tr
                      factors axis waveBreakdown isPrime (isCorner b) (cyclePos b)
                      (bendingCounterpart b) (bendingPair b)))
  end.

(** * Properties *)

(** ** Waves and splits *)

Lemma valid_dimension_cases d :
  valid_dimension d → d = 0 ∨ d = 1 ∨ d = 2 ∨ d = 3 ∨ d = 4 ∨ d = 5.
Proof. unfold valid_dimension. lia. Qed.

Lemma waveLeft_range n k : 0 < k → 0 ≤ waveLeft n k ≤ k.
Proof.
  intros Hk. unfold waveLeft.
  pose proof (Z.rem_bound_pos (Z.abs n) (2 * k)) as Hb.
  lia.
Qed.

(** The wave only depends on the residue of [n] itself, sign included: the
    triangle is symmetric, so taking [Math.abs] first changes nothing. *)
Lemma waveLeft_mod n k :
  0 < k → waveLeft n k = k - Z.min (n mod (2 * k)) (2 * k - n mod (2 * k)).
Proof.
  intros Hk. unfold waveLeft.
  rewrite Z.rem_mod_nonneg by lia.
  destruct (Z.le_gt_cases 0 n) as [Hn | Hn].
  - by rewrite Z.abs_eq.
  - rewrite Z.abs_neq by lia.
    destruct (Z.eq_dec (n mod (2 * k)) 0) as [Hz | Hnz].
    + rewrite Z.mod_opp_l_z by lia. lia.
    + rewrite Z.mod_opp_l_nz by lia.
      pose proof (Z.mod_pos_bound n (2 * k)). lia.
Qed.

Lemma waveLeft_periodic n k t : 0 < k → waveLeft (n + t * (2 * k)) k = waveLeft n k.
Proof.
  intros Hk. rewrite !waveLeft_mod by done.
  by rewrite Z_mod_plus_full.
Qed.

Lemma waveLeft_opp n k : waveLeft (- n) k = waveLeft n k.
Proof. unfold waveLeft. by rewrite Z.abs_opp. Qed.

Lemma baseL_range n d : 0 ≤ baseL (getSplit n d) ≤ 15.
Proof.
  cbn.
  pose proof (waveLeft_range n 3). pose proof (waveLeft_range n 5).
  pose proof (waveLeft_range n 7). lia.
Qed.

(** The primary split of a valid dimension, in closed form. *)
Lemma getSplit_L n d :
  valid_dimension d →
  L (getSplit n d) =
    Num (if d <? 3 then baseL (getSplit n d) + (2 - d)
         else 17 - (baseL (getSplit n d) + (5 - d))).
Proof.
  intros Hd.
  destruct (valid_dimension_cases d Hd) as [-> | [-> | [-> | [-> | [-> | ->]]]]];
    cbn; f_equal; lia.
Qed.

Lemma getSplit_R n d :
  R (getSplit n d) = sub (Num 17) (L (getSplit n d)).
Proof. reflexivity. Qed.

Lemma getSplit_L_range n d l :
  valid_dimension d → L (getSplit n d) = Num l → 0 ≤ l ≤ 17.
Proof.
  intros Hd. rewrite getSplit_L by done.
  pose proof (baseL_range n d) as Hb. unfold valid_dimension in Hd.
  intros [= <-]. cbn in Hb. destruct (Z.ltb_spec d 3); lia.
Qed.

(** C1 (as stated, refuted).  At [n = 0] in dimension 0 the split is not
    [L = 2, R = 15] and [baseL] is not [0]: every wave is at its maximum at
    the origin. *)
Lemma origin_split_is_not_2_15 :
  ¬ (returned_label (getColorInfo 0 0) = Some "Zero"%string
     ∧ baseL (getSplit 0 0) = 0
     ∧ L (getSplit 0 0) = Num 2
     ∧ R (getSplit 0 0) = Num 15).
Proof. intros (_ & Hbase & _). vm_compute in Hbase. discriminate. Qed.

(** C1 (amended).  For [n = 0] and dimension 0 the color label is "Zero",
    [baseL(0) = 15] (each of the waves 3, 5, 7 is at its full height), and
    with the dimension-0 offset [+2] the primary split is [L = 17, R = 0],
    the "17|0" anchor. *)
Theorem origin_classification :
  returned_label (getColorInfo 0 0) = Some "Zero"%string
  ∧ waveLeft 0 3 = 3 ∧ waveLeft 0 5 = 5 ∧ waveLeft 0 7 = 7
  ∧ baseL (getSplit 0 0) = 15
  ∧ index offsets 0 = Some 2
  ∧ L (getSplit 0 0) = Num 17
  ∧ R (getSplit 0 0) = Num 0.
Proof.
  repeat split; reflexivity.
Qed.

(** C2.  For every integer [n] and every dimension in 0..5 the primary
    split consists of two integers [L] and [R] with [L + R = 17],
    [0 <= L <= 17] and [0 <= R <= 17]. *)
Theorem getSplit_primary_invariant (n d : Z) :
  valid_dimension d →
  ∃ l r, L (getSplit n d) = Num l ∧ R (getSplit n d) = Num r
         ∧ l + r = 17 ∧ 0 ≤ l ≤ 17 ∧ 0 ≤ r ≤ 17.
Proof.
  intros Hd.
  pose proof (getSplit_L n d Hd) as HL.
  pose proof (getSplit_L_range n d _ Hd HL) as Hrange.
  eexists _, _. split; [exact HL |].
  split; [rewrite getSplit_R, HL; reflexivity |].
  lia.
Qed.

Lemma getSplit_primary_invariant_at_9_4 :
  valid_dimension 4
  ∧ ∃ l r, L (getSplit 9 4) = Num l ∧ R (getSplit 9 4) = Num r
           ∧ l + r = 17 ∧ 0 ≤ l ≤ 17 ∧ 0 ≤ r ≤ 17.
Proof.
  split; [unfold valid_dimension; lia |].
  apply (getSplit_primary_invariant 9 4). unfold valid_dimension. lia.
Defined.

(** The sum [L + R] of an orthogonal entry, [NaN] included. *)
Lemma orthogonal_entries n d :
  valid_dimension d →
  ∃ l, L (getSplit n d) = Num l ∧ 0 ≤ l ≤ 17 ∧
    orthogonal (getSplit n d) =
      [ mkLR (Num l) (Num (17 - l));
        mkLR (Num (Z.max 0 (l - 1))) (Num (Z.min 17 (17 - l + 1)));
        mkLR (Num (Z.max 0 (l - 2))) (Num (Z.min 17 (17 - l + 2)));
        mkLR (Num (17 - l)) (Num l);
        mkLR (Num (Z.min 17 (17 - l + 1))) (Num (Z.max 0 (l - 1)));
        mkLR (Num (Z.min 17 (17 - l + 2))) (Num (Z.max 0 (l - 2))) ].
Proof.
  intros Hd.
  pose proof (getSplit_L n d Hd) as HL.
  pose proof (getSplit_L_range n d _ Hd HL) as Hrange.
  eexists. split; [exact HL |]. split; [exact Hrange |].
  change (orthogonal (getSplit n d)) with
    (let l := L (getSplit n d) in
     let r := sub (Num 17) l in
     [ mkLR l r;
       mkLR (max (Num 0) (sub l (Num 1))) (min (Num 17) (add r (Num 1)));
       mkLR (max (Num 0) (sub l (Num 2))) (min (Num 17) (add r (Num 2)));
       mkLR r l;
       mkLR (min (Num 17) (add r (Num 1))) (max (Num 0) (sub l (Num 1)));
       mkLR (min (Num 17) (add r (Num 2))) (max (Num 0) (sub l (Num 2))) ]).
  rewrite HL. reflexivity.
Qed.

(** C9 (as stated, refuted).  No integer and no dimension in 0..5 gives an
    orthogonal entry 1 or 2 whose sides do not add up to 17. *)
Lemma orthogonal_clamp_never_breaks_sum :
  ¬ ∃ n d e, valid_dimension d
      ∧ (orthogonal (getSplit n d) !! 1%nat = Some e
         ∨ orthogonal (getSplit n d) !! 2%nat = Some e)
      ∧ add (lr_L e) (lr_R e) ≠ Num 17.
Proof.
  intros (n & d & e & Hd & He & Hsum).
  destruct (orthogonal_entries n d Hd) as (l & _ & Hl & Ho).
  rewrite Ho in He. cbn in He.
  destruct He as [[= <-] | [= <-]]; apply Hsum; cbn; f_equal; lia.
Qed.

(** C9 (amended).  For every integer [n] and every dimension in 0..5, all
    six orthogonal entries, the clamped entries 1 and 2 included, are pairs
    of integers in [0, 17] with [L + R = 17]: since the primary split
    already has [0 <= L <= 17] and [R = 17 - L], the two clamps always cut
    by the same amount. *)
Theorem orthogonal_sum_17 (n d : Z) (e : LR) :
  valid_dimension d →
  e ∈ orthogonal (getSplit n d) →
  ∃ l r, e = mkLR (Num l) (Num r) ∧ l + r = 17 ∧ 0 ≤ l ≤ 17 ∧ 0 ≤ r ≤ 17.
Proof.
  intros Hd He.
  destruct (orthogonal_entries n d Hd) as (l & _ & Hl & Ho).
  rewrite Ho in He.
  repeat (apply elem_of_cons in He as [-> | He]);
    [eexists _, _; split; [reflexivity | lia] .. |].
  by apply elem_of_nil in He.
Qed.

Lemma orthogonal_sum_17_at_105 :
  valid_dimension 2
  ∧ mkLR (Num 0) (Num 17) ∈ orthogonal (getSplit 105 2)
  ∧ ∃ l r, mkLR (Num 0) (Num 17) = mkLR (Num l) (Num r)
           ∧ l + r = 17 ∧ 0 ≤ l ≤ 17 ∧ 0 ≤ r ≤ 17.
Proof.
  assert (Hd : valid_dimension 2) by (unfold valid_dimension; lia).
  assert (He : mkLR (Num 0) (Num 17) ∈ orthogonal (getSplit 105 2)).
  { apply elem_of_cons. left. reflexivity. }
  split; [exact Hd |]. split; [exact He |].
  exact (orthogonal_sum_17 105 2 _ Hd He).
Defined.

(** C10.  For every integer [n] and every dimension in 0..5 the primary
    split is periodic in [n] with period 210: [L] and [R] are determined by
    the waves 3, 5 and 7 alone, whose periods 6, 10 and 14 divide 210, while
    [w2], of period 4, is returned in the record without entering [L] or
    [R] (and is itself not 210-periodic). *)
Theorem getSplit_period_210 (n d : Z) :
  valid_dimension d →
  L (getSplit (n + 210) d) = L (getSplit n d)
  ∧ R (getSplit (n + 210) d) = R (getSplit n d)
  ∧ (∀ n', w3 (getSplit n' d) = w3 (getSplit n d) →
           w5 (getSplit n' d) = w5 (getSplit n d) →
           w7 (getSplit n' d) = w7 (getSplit n d) →
           L (getSplit n' d) = L (getSplit n d)
           ∧ R (getSplit n' d) = R (getSplit n d))
  ∧ w2 (getSplit (n + 4) d) = w2 (getSplit n d)
  ∧ w2 (getSplit (0 + 210) d) ≠ w2 (getSplit 0 d).
Proof.
  intros Hd.
  assert (Hwaves : ∀ n', w3 (getSplit n' d) = w3 (getSplit n d) →
           w5 (getSplit n' d) = w5 (getSplit n d) →
           w7 (getSplit n' d) = w7 (getSplit n d) →
           L (getSplit n' d) = L (getSplit n d)
           ∧ R (getSplit n' d) = R (getSplit n d)).
  { intros n' H3 H5 H7.
    assert (HL : L (getSplit n' d) = L (getSplit n d)).
    { rewrite !getSplit_L by done. cbn in *. by rewrite H3, H5, H7. }
    split; [exact HL |]. by rewrite !getSplit_R, HL. }
  assert (H210 : L (getSplit (n + 210) d) = L (getSplit n d)
                 ∧ R (getSplit (n + 210) d) = R (getSplit n d)).
  { apply Hwaves; cbn.
    - replace (n + 210) with (n + 35 * (2 * 3)) by lia. by apply waveLeft_periodic.
    - replace (n + 210) with (n + 21 * (2 * 5)) by lia. by apply waveLeft_periodic.
    - replace (n + 210) with (n + 15 * (2 * 7)) by lia. by apply waveLeft_periodic. }
  destruct H210 as [HL HR].
  repeat split; try done.
  - apply Hwaves; assumption.
  - apply Hwaves; assumption.
  - cbn. replace (n + 4) with (n + 1 * (2 * 2)) by lia. by apply waveLeft_periodic.
Qed.

Lemma getSplit_period_210_at_minus_100 :
  valid_dimension 3
  ∧ L (getSplit (-100 + 210) 3) = L (getSplit (-100) 3)
  ∧ R (getSplit (-100 + 210) 3) = R (getSplit (-100) 3).
Proof.
  assert (Hd : valid_dimension 3) by (unfold valid_dimension; lia).
  split; [exact Hd |].
  destruct (getSplit_period_210 (-100) 3 Hd) as (HL & HR & _).
  split; [exact HL | exact HR].
Defined.

(** ** Prime bending *)

(** C8.  For every [n]: [cyclePos = |n| mod 210],
    [counterpart = (210 - cyclePos) mod 210], hence
    [cyclePos + counterpart] is a multiple of 210 and [counterpart = 0]
    when [cyclePos = 0]; the quad-anchor flag is true exactly when
    [cyclePos] is one of 11, 13, 17, 19, 191, 193, 197, 199; and [n = 17]
    gives [cyclePos = 17], [counterpart = 193] and a true flag. *)
Theorem primeBending_spec (n : Z) :
  cyclePos (primeBending n) = Z.abs n mod 210
  ∧ bendingCounterpart (primeBending n) = (210 - cyclePos (primeBending n)) mod 210
  ∧ (cyclePos (primeBending n) + bendingCounterpart (primeBending n)) mod 210 = 0
  ∧ (cyclePos (primeBending n) = 0 → bendingCounterpart (primeBending n) = 0)
  ∧ (isCorner (primeBending n) = true
     ↔ cyclePos (primeBending n) ∈ [11; 13; 17; 19; 191; 193; 197; 199])
  ∧ cyclePos (primeBending 17) = 17
  ∧ bendingCounterpart (primeBending 17) = 193
  ∧ isCorner (primeBending 17) = true.
Proof.
  assert (Hc : cyclePos (primeBending n) = Z.abs n mod 210).
  { cbn. apply Z.rem_mod_nonneg; lia. }
  pose proof (Z.mod_pos_bound (Z.abs n) 210 ltac:(lia)) as Hb.
  rewrite <- Hc in Hb.
  assert (Hk : bendingCounterpart (primeBending n)
               = (210 - cyclePos (primeBending n)) mod 210).
  { cbn. apply Z.rem_mod_nonneg; cbn in Hb; lia. }
  assert (Hv : bendingCounterpart (primeBending n)
               = if cyclePos (primeBending n) =? 0 then 0
                 else 210 - cyclePos (primeBending n)).
  { rewrite Hk. destruct (Z.eqb_spec (cyclePos (primeBending n)) 0) as [-> | Hnz].
    - reflexivity.
    - apply Z.mod_small. lia. }
  split; [exact Hc |]. split; [exact Hk |].
  split.
  { rewrite Hv. destruct (Z.eqb_spec (cyclePos (primeBending n)) 0) as [-> | Hnz].
    - reflexivity.
    - replace (_ + _) with 210 by lia. reflexivity. }
  split; [intros Hz; by rewrite Hv, Hz |].
  split; [| by vm_compute].
  change (isCorner (primeBending n))
    with (existsb (Z.eqb (cyclePos (primeBending n))) quad_anchors).
  rewrite existsb_exists. unfold quad_anchors. split.
  - intros (x & Hx & Heq). apply Z.eqb_eq in Heq. subst x. by apply list_elem_of_In.
  - intros Hx. exists (cyclePos (primeBending n)).
    split; [by apply list_elem_of_In | apply Z.eqb_refl].
Qed.

Lemma primeBending_spec_at_minus_420 :
  cyclePos (primeBending (-420)) = 0 ∧ bendingCounterpart (primeBending (-420)) = 0.
Proof.
  destruct (primeBending_spec (-420)) as (_ & _ & _ & Hz & _).
  split; [reflexivity | apply Hz; reflexivity].
Defined.

(** ** Sieve tables *)

Lemma sieve_terminates : sieve = Some IS_PRIME.
Proof. vm_compute. reflexivity. Qed.

Lemma PRIME_COUNT_unfold : PRIME_COUNT = prime_count_table.
Proof. vm_compute. reflexivity. Qed.

Lemma IS_PRIME_length : length IS_PRIME = Z.to_nat (MAX_N + 1).
Proof. vm_compute. reflexivity. Qed.

Lemma PRIME_COUNT_length : length PRIME_COUNT = Z.to_nat (MAX_N + 1).
Proof. vm_compute. reflexivity. Qed.

#[global] Opaque IS_PRIME PRIME_COUNT.

Lemma index_ge_None {A : Type} (arr : list A) (i : Z) :
  Z.of_nat (length arr) ≤ i → index arr i = None.
Proof.
  intros Hi. unfold index.
  destruct (Z.ltb_spec i 0); [done |].
  apply lookup_ge_None_2. lia.
Qed.

Lemma index_neg_None {A : Type} (arr : list A) (i : Z) :
  i < 0 → index arr i = None.
Proof. intros Hi. unfold index. by destruct (Z.ltb_spec i 0); [| lia]. Qed.

Lemma index_IS_PRIME_beyond a : MAX_N < a → index IS_PRIME a = None.
Proof.
  intros Ha. apply index_ge_None. rewrite IS_PRIME_length. unfold MAX_N in *. lia.
Qed.

Lemma index_PRIME_COUNT_beyond a : MAX_N < a → index PRIME_COUNT a = None.
Proof.
  intros Ha. apply index_ge_None. rewrite PRIME_COUNT_length. unfold MAX_N in *. lia.
Qed.

(** ** Colors *)

Lemma rem_abs_divide n k :
  0 < k → (Z.rem (Z.abs n) k =? 0) = true ↔ (k | n).
Proof.
  intros Hk. rewrite Z.eqb_eq, Z.rem_divide by lia.
  apply Z.divide_abs_r.
Qed.

Lemma rem_abs_not_divide n k :
  0 < k → (Z.rem (Z.abs n) k =? 0) = false ↔ ¬ (k | n).
Proof.
  intros Hk. rewrite <- rem_abs_divide by done.
  by destruct (Z.rem (Z.abs n) k =? 0).
Qed.

Lemma index_shifts_valid d row :
  index shifts d = Some row → valid_dimension d.
Proof.
  intros Hrow. unfold valid_dimension.
  destruct (Z.lt_ge_cases d 0) as [Hneg | Hpos].
  { by rewrite index_neg_None in Hrow. }
  destruct (Z.le_gt_cases 6 d) as [Hbig | Hsmall]; [| lia].
  rewrite index_ge_None in Hrow; [done | cbn; lia].
Qed.

(** Turn the divisibility hypotheses on [n] among 2, 3, 7 into the tests
    [abs % k === 0] of the source. *)
Ltac divisibility_to_bool :=
  repeat match goal with
    | H : (?k | ?n) |- _ => apply (rem_abs_divide n k ltac:(lia)) in H
    | H : ¬ (?k | ?n) |- _ =>
        lazymatch k with
        | 5 => fail
        | _ => apply (rem_abs_not_divide n k ltac:(lia)) in H
        end
    end.

(** What [getColorInfo] does on a number that is not a multiple of 5 and
    for which the combination block fires. *)
Lemma getColorInfo_combination n d c2 c3 c7 c :
  index shifts d = Some (c2, c3, c7) →
  1 < Z.abs n →
  ¬ (5 | n) →
  combination_rule (n <? 0) (Z.rem (Z.abs n) 2 =? 0) (Z.rem (Z.abs n) 3 =? 0)
    (Z.rem (Z.abs n) 7 =? 0) c2 c3 c7 = Some c →
  getColorInfo n d = Return (index COLOR_MAP c).
Proof.
  intros Hrow Habs H5 Hrule. unfold getColorInfo.
  destruct (Z.eqb_spec (Z.abs n) 0); [lia |].
  destruct (Z.eqb_spec (Z.abs n) 1); [lia |].
  rewrite Hrow.
  apply rem_abs_not_divide in H5; [| lia]. rewrite H5.
  rewrite !andb_false_r, andb_false_l. by rewrite Hrule.
Qed.

(** C4.  For a negative [n] that is not a multiple of 5 and is divisible
    by exactly two of 2, 3, 7, [getColorInfo] returns the base color the
    dimension's row of [shifts] gives to the third, absent factor (the color
    the bare number 2, 3 or 7 gets in that dimension), and this differs from
    the combination color of the positive number [-n]; in particular
    [getColorInfo(-14, 0)] is the [c3] color of dimension 0, "Yellow". *)
Theorem negative_pair_takes_absent_factor_color :
  (∀ n d c2 c3 c7,
     n < 0 → index shifts d = Some (c2, c3, c7) → ¬ (5 | n) →
     ((3 | n) → (7 | n) → ¬ (2 | n) →
        getColorInfo n d = Return (index COLOR_MAP c2)
        ∧ getColorInfo n d = getColorInfo 2 d
        ∧ getColorInfo n d ≠ getColorInfo (- n) d)
     ∧ ((2 | n) → (3 | n) → ¬ (7 | n) →
        getColorInfo n d = Return (index COLOR_MAP c7)
        ∧ getColorInfo n d = getColorInfo 7 d
        ∧ getColorInfo n d ≠ getColorInfo (- n) d)
     ∧ ((2 | n) → (7 | n) → ¬ (3 | n) →
        getColorInfo n d = Return (index COLOR_MAP c3)
        ∧ getColorInfo n d = getColorInfo 3 d
        ∧ getColorInfo n d ≠ getColorInfo (- n) d))
  ∧ index shifts 0 = Some (5, 6, 7)
  ∧ getColorInfo (-14) 0 = Return (index COLOR_MAP 6)
  ∧ returned_label (getColorInfo (-14) 0) = Some "Yellow"%string.
Proof.
  split; [| by vm_compute].
  intros n d c2 c3 c7 Hneg Hrow H5.
  assert (H5' : ¬ (5 | - n)) by by rewrite Z.divide_opp_r.
  assert (Hpos : (- n <? 0) = false) by (apply Z.ltb_ge; lia).
  assert (Hlt : (n <? 0) = true) by (apply Z.ltb_lt; lia).
  pose proof (index_shifts_valid _ _ Hrow) as Hd.
  assert (Hbare : getColorInfo 2 d = Return (index COLOR_MAP c2)
                  ∧ getColorInfo 3 d = Return (index COLOR_MAP c3)
                  ∧ getColorInfo 7 d = Return (index COLOR_MAP c7)).
  { destruct (valid_dimension_cases d Hd) as [-> | [-> | [-> | [-> | [-> | ->]]]]];
      cbn in Hrow; injection Hrow as <- <- <-; by vm_compute. }
  destruct Hbare as (Hbare2 & Hbare3 & Hbare7).
  assert (Hrows : (c2, c3, c7) ∈ shifts).
  { apply list_elem_of_lookup. exists (Z.to_nat d). unfold index in Hrow.
    by destruct (d <? 0). }
  assert (Hbase : ∀ c c', (c = c2 ∨ c = c3 ∨ c = c7) → (c' = 8 ∨ c' = 9 ∨ c' = 10) →
            Return (index COLOR_MAP c) ≠ Return (index COLOR_MAP c')).
  { clear -Hrows. intros c c' Hc Hc'.
    repeat (apply elem_of_cons in Hrows as [[= -> -> ->] | Hrows]);
      [destruct Hc as [-> | [-> | ->]], Hc' as [-> | [-> | ->]]; by vm_compute .. |].
    by apply elem_of_nil in Hrows. }
  assert (Hbig : ∀ a, (a | n) → 1 < a → 1 < Z.abs n ∧ 1 < Z.abs (- n)).
  { intros a Ha Ha1. rewrite Z.abs_opp.
    apply Z.divide_abs_r in Ha. destruct Ha as [k Hk].
    assert (0 < Z.abs n) by lia. assert (0 < k) by nia. split; nia. }
  split; [| split].
  - intros H3 H7 H2. destruct (Hbig 3 H3) as [Habs Habs']; [lia |].
    divisibility_to_bool. rewrite Hbare2.
    rewrite (getColorInfo_combination n d c2 c3 c7 c2),
      (getColorInfo_combination (- n) d c2 c3 c7 10); try done.
    + split; [done |]. split; [done |]. apply Hbase; auto.
    + by rewrite Hpos, Z.abs_opp, H2, H3, H7.
    + by rewrite Hlt, H2, H3, H7.
  - intros H2 H3 H7. destruct (Hbig 2 H2) as [Habs Habs']; [lia |].
    divisibility_to_bool. rewrite Hbare7.
    rewrite (getColorInfo_combination n d c2 c3 c7 c7),
      (getColorInfo_combination (- n) d c2 c3 c7 8); try done.
    + split; [done |]. split; [done |]. apply Hbase; auto.
    + by rewrite Hpos, Z.abs_opp, H2, H3, H7.
    + by rewrite Hlt, H2, H3, H7.
  - intros H2 H7 H3. destruct (Hbig 2 H2) as [Habs Habs']; [lia |].
    divisibility_to_bool. rewrite Hbare3.
    rewrite (getColorInfo_combination n d c2 c3 c7 c3),
      (getColorInfo_combination (- n) d c2 c3 c7 9); try done.
    + split; [done |]. split; [done |]. apply Hbase; auto.
    + by rewrite Hpos, Z.abs_opp, H2, H3, H7.
    + by rewrite Hlt, H2, H3, H7.
Qed.

Lemma negative_pair_at_minus_14 :
  -14 < 0 ∧ index shifts 0 = Some (5, 6, 7) ∧ ¬ (5 | -14)
  ∧ (2 | -14) ∧ (7 | -14) ∧ ¬ (3 | -14)
  ∧ getColorInfo (-14) 0 = Return (index COLOR_MAP 6).
Proof.
  assert (H5 : ¬ (5 | -14)) by (apply rem_abs_not_divide; [lia | reflexivity]).
  assert (H3 : ¬ (3 | -14)) by (apply rem_abs_not_divide; [lia | reflexivity]).
  assert (H2 : (2 | -14)) by (exists (-7); reflexivity).
  assert (H7 : (7 | -14)) by (exists (-2); reflexivity).
  assert (Hneg : -14 < 0) by lia.
  repeat (split; [assumption || reflexivity |]).
  destruct negative_pair_takes_absent_factor_color as [Hall _].
  destruct (Hall (-14) 0 5 6 7 Hneg eq_refl H5) as (_ & _ & Hcase).
  destruct (Hcase H2 H7 H3) as [Hcolor _]. exact Hcolor.
Defined.

(** A call that leaves the early exits behind needs a row of [shifts]. *)
Lemma getColorInfo_invalid_dimension n d :
  ¬ valid_dimension d →
  getColorInfo n d =
    if Z.abs n =? 0 then Return (index COLOR_MAP 0)
    else if Z.abs n =? 1 then Return (index COLOR_MAP 1)
    else Throw TypeError.
Proof.
  intros Hd. unfold getColorInfo.
  destruct (index shifts d) as [row |] eqn:Hrow; [| done].
  by apply index_shifts_valid in Hrow.
Qed.

Lemma index_offsets_invalid d : ¬ valid_dimension d → index offsets d = None.
Proof.
  intros Hd. unfold valid_dimension in Hd.
  destruct (Z.lt_ge_cases d 0); [by apply index_neg_None |].
  apply index_ge_None. cbn. lia.
Qed.

(** C5 (as stated, refuted).  With the dimension 6 nothing is rejected:
    [getColorInfo(0, 6)] returns the "Zero" color and [getSplit(0, 6)]
    returns a record, with [NaN] for [L] and [R]. *)
Lemma invalid_dimension_is_not_rejected :
  ¬ valid_dimension 6
  ∧ ¬ (∃ e, getColorInfo 0 6 = Throw e)
  ∧ returned_label (getColorInfo 0 6) = Some "Zero"%string
  ∧ L (getSplit 0 6) = NaN
  ∧ baseL (getSplit 0 6) = 15.
Proof.
  split; [unfold valid_dimension; lia |].
  split; [intros [e He]; vm_compute in He; discriminate |].
  by vm_compute.
Qed.

(** C5 (amended).  The engine does not validate the dimension.  For a
    dimension outside 0..5, [getSplit] raises nothing and returns a record
    whose waves and [baseL] are computed as usual while [L], [R] and all
    orthogonal entries are [NaN]; [getColorInfo] returns "Zero" for [n = 0]
    and "One" for [|n| = 1] whatever the dimension, and for every other [n]
    throws a [TypeError] when it destructures the missing row of [shifts]. *)
Theorem invalid_dimension_behaviour (n d : Z) :
  ¬ valid_dimension d →
  L (getSplit n d) = NaN
  ∧ R (getSplit n d) = NaN
  ∧ (∀ e, e ∈ orthogonal (getSplit n d) → e = mkLR NaN NaN)
  ∧ baseL (getSplit n d) = waveLeft n 3 + waveLeft n 5 + waveLeft n 7
  ∧ (n = 0 → returned_label (getColorInfo n d) = Some "Zero"%string)
  ∧ (Z.abs n = 1 → returned_label (getColorInfo n d) = Some "One"%string)
  ∧ (1 < Z.abs n → getColorInfo n d = Throw TypeError).
Proof.
  intros Hd.
  assert (HL : L (getSplit n d) = NaN).
  { cbn. rewrite index_offsets_invalid by done. cbn. by destruct (d <? 3). }
  assert (Ho : orthogonal (getSplit n d) = replicate 6 (mkLR NaN NaN)).
  { change (orthogonal (getSplit n d)) with
      (let l := L (getSplit n d) in
       let r := sub (Num 17) l in
       [ mkLR l r;
         mkLR (max (Num 0) (sub l (Num 1))) (min (Num 17) (add r (Num 1)));
         mkLR (max (Num 0) (sub l (Num 2))) (min (Num 17) (add r (Num 2)));
         mkLR r l;
         mkLR (min (Num 17) (add r (Num 1))) (max (Num 0) (sub l (Num 1)));
         mkLR (min (Num 17) (add r (Num 2))) (max (Num 0) (sub l (Num 2))) ]).
    by rewrite HL. }
  split; [exact HL |].
  split; [by rewrite getSplit_R, HL |].
  split; [intros e; rewrite Ho; by intros [-> _]%elem_of_replicate |].
  split; [reflexivity |].
  rewrite (getColorInfo_invalid_dimension n d Hd).
  split; [by intros -> |].
  split.
  - intros H1. rewrite H1. reflexivity.
  - intros H1. destruct (Z.eqb_spec (Z.abs n) 0); [lia |].
    by destruct (Z.eqb_spec (Z.abs n) 1); [lia |].
Qed.

Lemma invalid_dimension_behaviour_at_30_minus_1 :
  ¬ valid_dimension (-1)
  ∧ L (getSplit 30 (-1)) = NaN
  ∧ getColorInfo 30 (-1) = Throw TypeError.
Proof.
  assert (Hd : ¬ valid_dimension (-1)) by (unfold valid_dimension; lia).
  split; [exact Hd |].
  destruct (invalid_dimension_behaviour 30 (-1) Hd) as (HL & _ & _ & _ & _ & _ & Hthrow).
  split; [exact HL | apply Hthrow; reflexivity].
Defined.

Lemma isTransparent_beyond n : MAX_N < Z.abs n → isTransparent n = false.
Proof.
  intros Hn. unfold isTransparent.
  rewrite index_PRIME_COUNT_beyond by done. cbn. apply andb_false_r.
Qed.

(** Every call with a valid dimension returns an entry of [COLOR_MAP]; the
    entry 2, "Prime", is only returned after a successful read of
    [IS_PRIME]. *)
Lemma getColorInfo_cases n d :
  valid_dimension d →
  ∃ i, getColorInfo n d = Return (index COLOR_MAP i)
       ∧ 0 ≤ i < 16
       ∧ (i = 2 → truthy (index IS_PRIME (Z.abs n)) = true).
Proof.
  intros Hd. unfold getColorInfo.
  generalize (isColorless n) (isPrimePower (Z.abs n)) (truthy (index IS_PRIME (Z.abs n))).
  generalize (Z.abs n =? 0) (Z.abs n =? 1) (Z.abs n =? 2) (Z.abs n =? 3) (Z.abs n =? 7).
  generalize (Z.rem (Z.abs n) 2 =? 0) (Z.rem (Z.abs n) 3 =? 0)
    (Z.rem (Z.abs n) 5 =? 0) (Z.rem (Z.abs n) 7 =? 0) (n <? 0).
  intros b2 b3 b5 b7 isNeg e0 e1 e2 e3 e7 colorless power prime.
  destruct (valid_dimension_cases d Hd) as [-> | [-> | [-> | [-> | [-> | ->]]]]];
    destruct e0, e1; try (eexists; split; [reflexivity | lia]);
    destruct b5, b2, b3, b7, isNeg; try (eexists; split; [reflexivity | lia]);
    destruct e2, e3, e7; try (eexists; split; [reflexivity | lia]);
    destruct colorless, prime, power;
    eexists; (split; [reflexivity | split; [lia | done || lia]]).
Qed.

Lemma COLOR_MAP_entry i :
  0 ≤ i < 16 →
  ∃ c, index COLOR_MAP i = Some c ∧ c ∈ COLOR_MAP
       ∧ (i ≠ 2 → label c ≠ "Prime"%string).
Proof.
  intros Hi.
  assert (Hc : is_Some (index COLOR_MAP i)).
  { unfold index. destruct (Z.ltb_spec i 0); [lia |].
    apply lookup_lt_is_Some_2. cbn. lia. }
  destruct Hc as [c Hc]. exists c. split; [exact Hc |].
  split.
  { unfold index in Hc. destruct (i <? 0); [done |]. by eapply list_elem_of_lookup_2. }
  intros Hne.
  assert (Hcases : i = 0 ∨ i = 1 ∨ i = 3 ∨ i = 4 ∨ i = 5 ∨ i = 6 ∨ i = 7 ∨ i = 8 ∨ i = 9
                   ∨ i = 10 ∨ i = 11 ∨ i = 12 ∨ i = 13 ∨ i = 14 ∨ i = 15) by lia.
  repeat (destruct Hcases as [-> | Hcases]; [injection Hc as <-; done |]).
  subst i. by injection Hc as <-.
Qed.

(** C6 (as stated, refuted).  1693 is beyond [MAX_N]; no error is raised
    for it: [isTransparent] answers [false] and [getColorInfo] returns the
    default "Composite" although 1693 is prime. *)
Lemma beyond_MAX_N_is_not_rejected :
  MAX_N < Z.abs 1693
  ∧ ¬ (∃ e, getColorInfo 1693 0 = Throw e)
  ∧ returned_label (getColorInfo 1693 0) = Some "Composite"%string
  ∧ isTransparent 1693 = false.
Proof.
  split; [by vm_compute |].
  split; [intros [e He]; vm_compute in He; discriminate |].
  by vm_compute.
Qed.

(** C6 (amended).  The engine has no range check.  For every [n] with
    [|n| > MAX_N], [isTransparent(n)] returns [false] (the read of
    [PRIME_COUNT] past its end is [undefined]), and for every dimension in
    0..5 [getColorInfo] raises nothing and returns one of the sixteen
    colors, never "Prime", because the read of [IS_PRIME] past its end is
    [undefined] as well. *)
Theorem beyond_MAX_N_behaviour (n d : Z) :
  MAX_N < Z.abs n →
  valid_dimension d →
  isTransparent n = false
  ∧ ∃ c, getColorInfo n d = Return (Some c)
         ∧ c ∈ COLOR_MAP
         ∧ label c ≠ "Prime"%string.
Proof.
  intros Hn Hd. split; [by apply isTransparent_beyond |].
  destruct (getColorInfo_cases n d Hd) as (i & Hi & Hrange & Hprime).
  destruct (COLOR_MAP_entry i Hrange) as (c & Hc & Hin & Hlabel).
  exists c. split; [by rewrite Hi, Hc |]. split; [exact Hin |].
  apply Hlabel. intros ->.
  rewrite index_IS_PRIME_beyond in Hprime by done.
  by specialize (Hprime eq_refl).
Qed.

Lemma beyond_MAX_N_behaviour_at_14641 :
  MAX_N < Z.abs 14641 ∧ valid_dimension 0
  ∧ isTransparent 14641 = false
  ∧ ∃ c, getColorInfo 14641 0 = Return (Some c)
         ∧ c ∈ COLOR_MAP
         ∧ label c ≠ "Prime"%string.
Proof.
  assert (Hn : MAX_N < Z.abs 14641) by (unfold MAX_N; lia).
  assert (Hd : valid_dimension 0) by (unfold valid_dimension; lia).
  split; [exact Hn |]. split; [exact Hd |].
  exact (beyond_MAX_N_behaviour 14641 0 Hn Hd).
Defined.

(** ** The sieve agrees with primality *)

Lemma primeb_spec p : primeb p = true ↔ Z.prime p.
Proof.
  unfold primeb, Z.prime.
  rewrite andb_true_iff, Z.ltb_lt, forallb_forall.
  split; intros [Hp Hdiv]; (split; [exact Hp |]).
  - assert (Hsmall : ∀ d, 1 < d ≤ Z.sqrt p → ¬ (d | p)).
    { intros d Hd Hdp.
      assert (Hin : In d (seqZ 2 (Z.sqrt p - 1)))
        by (apply list_elem_of_In, elem_of_seqZ; lia).
      specialize (Hdiv d Hin). apply negb_true_iff, Z.eqb_neq in Hdiv.
      apply Hdiv, Z.mod0_divide, Hdp. }
    pose proof (Z.sqrt_spec p ltac:(lia)) as Hsqrt. cbv zeta in Hsqrt.
    intros d Hd Hdp.
    destruct (Z.le_gt_cases d (Z.sqrt p)) as [Hle | Hgt].
    { apply (Hsmall d); [lia | exact Hdp]. }
    destruct Hdp as [k Hk].
    pose proof (Z.sqrt_nonneg p) as Hnonneg.
    assert (Hk1 : 1 < k) by nia.
    apply (Hsmall k); [| exists d; lia].
    split; [exact Hk1 |].
    destruct (Z.le_gt_cases k (Z.sqrt p)) as [Hkle | Hkgt]; [exact Hkle | exfalso].
    assert ((Z.sqrt p + 1) * (Z.sqrt p + 1) ≤ k * d)
      by (apply Z.mul_le_mono_nonneg; lia).
    lia.
  - pose proof (Z.sqrt_spec p ltac:(lia)) as Hsqrt. cbv zeta in Hsqrt.
    intros d Hd%list_elem_of_In%elem_of_seqZ.
    apply negb_true_iff, Z.eqb_neq. intros Hmod.
    apply (Hdiv d); [nia |]. apply Z.mod_divide; [lia | exact Hmod].
Qed.

Lemma forallb_seqZ (f : Z → bool) (lo len i : Z) :
  forallb f (seqZ lo len) = true → lo ≤ i < lo + len → f i = true.
Proof.
  intros Hall Hi. rewrite forallb_forall in Hall.
  apply Hall, list_elem_of_In, elem_of_seqZ, Hi.
Qed.

(** Checked by running the sieve against [primeb] on the whole table. *)
Lemma IS_PRIME_agrees_with_primeb :
  forallb (λ i, Bool.eqb (truthy (index IS_PRIME i)) (primeb i)) (seqZ 0 (MAX_N + 1)) = true.
Proof. vm_compute. reflexivity. Qed.

Lemma IS_PRIME_spec i :
  0 ≤ i ≤ MAX_N → truthy (index IS_PRIME i) = true ↔ Z.prime i.
Proof.
  intros Hi. rewrite <- primeb_spec.
  pose proof (forallb_seqZ _ _ _ i IS_PRIME_agrees_with_primeb ltac:(lia)) as Heq.
  apply eqb_prop in Heq. by rewrite Heq.
Qed.

(** A truthy read of the table, anywhere, is a prime. *)
Lemma IS_PRIME_sound a : truthy (index IS_PRIME a) = true → Z.prime a.
Proof.
  intros Ha.
  destruct (Z.lt_ge_cases a 0) as [Hneg | Hpos].
  { by rewrite index_neg_None in Ha. }
  destruct (Z.lt_ge_cases MAX_N a) as [Hbig | Hsmall].
  { by rewrite index_IS_PRIME_beyond in Ha. }
  by apply IS_PRIME_spec.
Qed.

(** ** Transparency *)

Lemma elem_of_primes_upto p m : p ∈ primes_upto m ↔ Z.prime p ∧ p ≤ m.
Proof.
  unfold primes_upto. rewrite list_elem_of_filter, elem_of_seqZ.
  split; [intros [Hp ?]; split; [done | lia] |].
  intros [Hp ?]. split; [done |]. pose proof (Z.prime_ge_2 p Hp). lia.
Qed.

Lemma NoDup_primes_upto m : NoDup (primes_upto m).
Proof. apply NoDup_filter, NoDup_seqZ. Qed.

Lemma primes_upto_succ i :
  0 ≤ i →
  primes_upto (i + 1) = primes_upto i ++ (if decide (Z.prime (i + 1)) then [i + 1] else []).
Proof.
  intros Hi. unfold primes_upto.
  rewrite (seqZ_app 0 (i + 1) 1) by lia.
  rewrite filter_app. f_equal.
Qed.

(** Each entry of [PRIME_COUNT] is the previous one plus the sieve bit. *)
Lemma PRIME_COUNT_recurrence :
  index PRIME_COUNT 0 = Some 0
  ∧ forallb (λ i, match index PRIME_COUNT i, index PRIME_COUNT (i - 1) with
                  | Some c, Some c' =>
                      c =? c' + (if truthy (index IS_PRIME i) then 1 else 0)
                  | _, _ => false
                  end) (seqZ 1 MAX_N) = true.
Proof. split; vm_compute; reflexivity. Qed.

Lemma PRIME_COUNT_spec i :
  0 ≤ i ≤ MAX_N → index PRIME_COUNT i = Some (Z.of_nat (length (primes_upto i))).
Proof.
  intros Hi. rewrite <- (Z2Nat.id i) in * by lia.
  induction (Z.to_nat i) as [| k IH].
  - apply PRIME_COUNT_recurrence.
  - destruct PRIME_COUNT_recurrence as [_ Hrec].
    pose proof (forallb_seqZ _ _ _ (Z.of_nat (S k)) Hrec ltac:(lia)) as Hk.
    cbv beta in Hk.
    replace (Z.of_nat (S k) - 1) with (Z.of_nat k) in Hk by lia.
    rewrite IH in Hk by lia.
    destruct (index PRIME_COUNT (Z.of_nat (S k))) as [c |]; [| done].
    apply Z.eqb_eq in Hk. subst c. f_equal.
    replace (Z.of_nat (S k)) with (Z.of_nat k + 1) by lia.
    rewrite primes_upto_succ, length_app by lia.
    pose proof (IS_PRIME_spec (Z.of_nat k + 1) ltac:(lia)) as Hp.
    destruct (decide (Z.prime (Z.of_nat k + 1))) as [Hprime | Hnot].
    + apply Hp in Hprime. rewrite Hprime. cbn. lia.
    + destruct (truthy (index IS_PRIME (Z.of_nat k + 1))) eqn:Hbit; [| cbn; lia].
      exfalso. apply Hnot, Hp. reflexivity.
Qed.

Lemma isTransparent_opp n : isTransparent (- n) = isTransparent n.
Proof. unfold isTransparent. by rewrite Z.abs_opp. Qed.

(** C7.  For every [n] with [|n| <= MAX_N], [isTransparent(n)] is true
    exactly when [|n| > 1] and the number of primes up to [|n|] is odd; the
    result depends on the magnitude alone, so
    [isTransparent(n) = isTransparent(-n)] for every [n]. *)
Theorem isTransparent_spec (n : Z) :
  isTransparent n = isTransparent (- n)
  ∧ isTransparent n = isTransparent (Z.abs n)
  ∧ (Z.abs n ≤ MAX_N →
     isTransparent n = true ↔ 1 < Z.abs n ∧ Nat.Odd (length (primes_upto (Z.abs n)))).
Proof.
  split; [by rewrite isTransparent_opp |].
  split; [unfold isTransparent; by rewrite Z.abs_idemp |].
  intros Hn. unfold isTransparent.
  rewrite PRIME_COUNT_spec by lia. cbn [of_lookup rem strict_eq Z.eqb].
  rewrite andb_true_iff, Z.ltb_lt, Z.eqb_eq.
  rewrite Z.rem_mod_nonneg by lia.
  generalize (length (primes_upto (Z.abs n))). intros len.
  split; intros [H1 Hodd]; (split; [exact H1 |]).
  - exists (Z.to_nat (Z.of_nat len / 2)).
    pose proof (Z.div_mod (Z.of_nat len) 2 ltac:(lia)).
    pose proof (Z.div_pos (Z.of_nat len) 2 ltac:(lia) ltac:(lia)). lia.
  - destruct Hodd as [k ->].
    replace (Z.of_nat (2 * k + 1)) with (1 + Z.of_nat k * 2) by lia.
    by rewrite Z_mod_plus_full.
Qed.

Lemma isTransparent_spec_at_minus_2 :
  Z.abs (-2) ≤ MAX_N
  ∧ (isTransparent (-2) = true ↔ 1 < Z.abs (-2) ∧ Nat.Odd (length (primes_upto (Z.abs (-2))))).
Proof.
  assert (Hn : Z.abs (-2) ≤ MAX_N) by (unfold MAX_N; lia).
  split; [exact Hn |].
  destruct (isTransparent_spec (-2)) as (_ & _ & Hiff). exact (Hiff Hn).
Defined.

(** ** Factorization *)

Lemma factors_product_empty : factors_product ∅ = 1.
Proof. apply map_fold_empty. Qed.

Lemma factors_product_insert (f : gmap Z Z) p e :
  f !! p = None → factors_product (<[p := e]> f) = p ^ e * factors_product f.
Proof.
  intros Hp. unfold factors_product.
  apply (map_fold_insert_L (λ p e acc, p ^ e * acc)); [| done].
  intros. ring.
Qed.

Lemma factors_product_delete (f : gmap Z Z) p e :
  f !! p = Some e → factors_product f = p ^ e * factors_product (delete p f).
Proof.
  intros Hp. unfold factors_product.
  apply (map_fold_delete_L (λ p e acc, p ^ e * acc)); [| done].
  intros. ring.
Qed.

Lemma factors_product_singleton p e : factors_product {[p := e]} = p ^ e.
Proof.
  rewrite <- insert_empty, factors_product_insert, factors_product_empty by done.
  ring.
Qed.

Lemma factors_product_bump (f : gmap Z Z) p :
  (∀ e, f !! p = Some e → 1 ≤ e) →
  factors_product (bump p f) = p * factors_product f.
Proof.
  intros Hpos. unfold bump. destruct (f !! p) as [e |] eqn:Hp.
  - specialize (Hpos e eq_refl).
    destruct (Z.eqb_spec e 0); [lia |].
    rewrite <- insert_delete_eq, factors_product_insert by apply lookup_delete_eq.
    rewrite (factors_product_delete f p e) by done.
    rewrite Z.pow_add_r, Z.pow_1_r by lia. ring.
  - rewrite factors_product_insert by done.
    rewrite Z.add_0_l, Z.pow_1_r. ring.
Qed.

Lemma lookup_bump (f : gmap Z Z) p r e :
  bump p f !! r = Some e →
  (r = p ∧ (f !! p = None ∧ e = 1 ∨ ∃ e0, f !! p = Some e0 ∧ (e0 = 0 ∨ e = e0 + 1)))
  ∨ (r ≠ p ∧ f !! r = Some e).
Proof.
  unfold bump. destruct (decide (r = p)) as [-> | Hne].
  - rewrite lookup_insert_eq. intros [= <-]. left. split; [done |].
    destruct (f !! p) as [e0 |]; [right | left; done].
    exists e0. split; [done |]. destruct (Z.eqb_spec e0 0); [by left | by right].
  - rewrite lookup_insert_ne by done. by right.
Qed.

Lemma prime_keys_below_bump (f : gmap Z Z) p :
  Z.prime p → prime_keys_below (p + 1) f → prime_keys_below (p + 1) (bump p f).
Proof.
  intros Hprime Hkeys r e Hr.
  apply lookup_bump in Hr as [[-> Hcases] | [Hne Hr]]; [| by apply Hkeys].
  split; [exact Hprime |]. split; [| lia].
  destruct Hcases as [[_ ->] | (e0 & Hp & He)]; [lia |].
  destruct (Hkeys p e0 Hp) as (_ & He0 & _). lia.
Qed.

Lemma prime_keys_below_weaken b b' (f : gmap Z Z) :
  b ≤ b' → prime_keys_below b f → prime_keys_below b' f.
Proof.
  intros Hb Hkeys r e Hr. destruct (Hkeys r e Hr) as (? & ? & ?).
  split; [done |]. split; [done | lia].
Qed.

(** The least divisor above 1 of a number is prime. *)
Lemma no_divisor_below_prime p m :
  1 < p → no_divisor_below p m → (p | m) → Z.prime p.
Proof.
  intros Hp Hnone Hpm. split; [exact Hp |].
  intros d Hd Hdp. apply (Hnone d Hd). by etransitivity.
Qed.

Lemma no_divisor_below_divide b m m' :
  (m' | m) → no_divisor_below b m → no_divisor_below b m'.
Proof. intros Hm Hnone d Hd Hdm. apply (Hnone d Hd). by etransitivity. Qed.

(** A cofactor below the square of the trial bound is 1 or a prime. *)
Lemma no_divisor_below_sqrt_prime p m :
  0 ≤ p → 1 < m → m < p * p → no_divisor_below p m → Z.prime m.
Proof.
  intros Hp Hm Hsq Hnone. split; [exact Hm |].
  intros d Hd [k Hk].
  destruct (Z.lt_ge_cases d p) as [Hlt | Hge].
  { apply (Hnone d); [lia | by exists k]. }
  assert (Hk1 : 1 < k) by nia.
  destruct (Z.lt_ge_cases k p) as [Hklt | Hkge].
  { apply (Hnone k); [lia | exists d; lia]. }
  assert (p * p ≤ k * d) by (apply Z.mul_le_mono_nonneg; lia).
  lia.
Qed.

Lemma rem_zero_divide m p : p ≠ 0 → (Z.rem m p =? 0) = true ↔ (p | m).
Proof. intros Hp. by rewrite Z.eqb_eq, Z.rem_divide. Qed.

(** The inner loop: enough fuel, and what it leaves behind. *)
Lemma divide_out_spec fuel p f m :
  2 ≤ p → 1 ≤ m → (Z.to_nat m ≤ fuel)%nat →
  no_divisor_below p m →
  prime_keys_below (p + 1) f →
  ∃ f' m', divide_out fuel p f m = Some (f', m')
    ∧ 1 ≤ m' ≤ m ∧ ¬ (p | m') ∧ (m' | m)
    ∧ factors_product f' * m' = factors_product f * m
    ∧ prime_keys_below (p + 1) f'.
Proof.
  intros Hp. revert f m.
  induction fuel as [| fuel IH]; intros f m Hm Hfuel Hnone Hkeys; [lia |].
  cbn [divide_out].
  destruct (Z.rem m p =? 0) eqn:Hrem.
  - apply rem_zero_divide in Hrem; [| lia].
    pose proof (no_divisor_below_prime p m ltac:(lia) Hnone Hrem) as Hprime.
    destruct Hrem as [k Hk].
    assert (Hdiv : m / p = k) by (subst m; apply Z.div_mul; lia).
    assert (Hk1 : 1 ≤ k < m) by nia.
    destruct (IH (bump p f) (m / p)) as (f' & m' & Hrun & Hm' & Hndiv & Hdvd & Hprod & Hkeys').
    + lia.
    + lia.
    + apply (no_divisor_below_divide p m); [| done]. exists p. lia.
    + by apply prime_keys_below_bump.
    + exists f', m'. split; [exact Hrun |].
      split; [lia |]. split; [exact Hndiv |].
      split; [etransitivity; [exact Hdvd |]; exists p; lia |].
      split; [| exact Hkeys'].
      rewrite Hprod, factors_product_bump.
      * rewrite Hdiv, Hk. ring.
      * intros e He. by destruct (Hkeys p e He) as (_ & ? & _).
  - exists f, m. split; [done |]. split; [lia |].
    split; [| split; [reflexivity | split; [reflexivity | exact Hkeys]]].
    intros Hdvd. apply rem_zero_divide in Hdvd; [congruence | lia].
Qed.

(** The outer loop. *)
Lemma trial_loop_spec a fuel p f m :
  2 ≤ p → 1 ≤ m →
  (1 ≤ fuel)%nat → m < Z.of_nat fuel - 1 + p * p →
  factors_product f * m = a →
  no_divisor_below p m → prime_keys_below p f →
  ∃ f' m' p', trial_loop fuel p f m = Some (f', m')
    ∧ p ≤ p' ∧ 1 ≤ m' ∧ m' < p' * p'
    ∧ factors_product f' * m' = a
    ∧ no_divisor_below p' m' ∧ prime_keys_below p' f'.
Proof.
  revert p f m.
  induction fuel as [| fuel IH]; intros p f m Hp Hm Hfuel1 Hfuel Hprod Hnone Hkeys; [lia |].
  cbn [trial_loop].
  destruct (Z.leb_spec (p * p) m) as [Hle | Hgt].
  - destruct (divide_out_spec (Z.to_nat m) p f m) as
      (f1 & m1 & Hrun & Hm1 & Hndiv & Hdvd & Hprod1 & Hkeys1);
      [lia | lia | lia | done | by apply (prime_keys_below_weaken p); [lia |] |].
    rewrite Hrun. cbn.
    destruct (IH (p + 1) f1 m1) as (f' & m' & p' & Hrun' & Hp' & Hrest);
      [lia | lia | lia | nia | congruence | | done |].
    + intros d Hd Hdm.
      destruct (decide (d = p)) as [-> | Hne]; [done |].
      apply (Hnone d); [lia | by etransitivity].
    + exists f', m', p'. split; [exact Hrun' |]. split; [lia | exact Hrest].
  - exists f, m, p.
    split; [done |]. split; [lia |]. split; [lia |]. split; [lia |].
    split; [exact Hprod |]. split; [exact Hnone | exact Hkeys].
Qed.

Lemma getFactorization_run_small n :
  Z.abs n < 2 → getFactorization_run n = Some ∅.
Proof.
  intros Hn. unfold getFactorization_run.
  by destruct (Z.ltb_spec (Z.abs n) 2); [| lia].
Qed.

(** Trial division terminates within its fuel and yields the prime
    factorization of the magnitude. *)
Lemma getFactorization_run_spec n :
  2 ≤ Z.abs n →
  ∃ f, getFactorization_run n = Some f
       ∧ factors_product f = Z.abs n ∧ prime_keys f.
Proof.
  intros Hn. unfold getFactorization_run.
  destruct (Z.ltb_spec (Z.abs n) 2); [lia |].
  destruct (trial_loop_spec (Z.abs n) (Z.to_nat (Z.abs n)) 2 ∅ (Z.abs n)) as
    (f & m & p & Hrun & Hp & Hm & Hsq & Hprod & Hnone & Hkeys).
  - lia.
  - lia.
  - lia.
  - lia.
  - rewrite factors_product_empty. lia.
  - intros d Hd. lia.
  - intros r e Hr. by rewrite lookup_empty in Hr.
  - rewrite Hrun. cbn.
    destruct (Z.ltb_spec 1 m) as [Hm1 | Hm1].
    + eexists. split; [reflexivity |].
      pose proof (no_divisor_below_sqrt_prime p m ltac:(lia) Hm1 Hsq Hnone) as Hprime.
      assert (Hmp : p ≤ m).
      { destruct (Z.le_gt_cases p m); [done |].
        exfalso. apply (Hnone m); [lia | reflexivity]. }
      assert (Hfresh : f !! m = None).
      { destruct (f !! m) as [e |] eqn:He; [| done].
        destruct (Hkeys m e He) as (_ & _ & ?). lia. }
      split.
      * rewrite factors_product_bump; [lia |]. intros e He. congruence.
      * intros r e Hr.
        apply lookup_bump in Hr as [[-> Hcases] | [Hne Hr]].
        -- destruct Hcases as [[_ ->] | (e0 & He0 & _)]; [| congruence].
           split; [done | lia].
        -- destruct (Hkeys r e Hr) as (? & ? & _). by split.
    + exists f. split; [done |].
      split; [replace m with 1 in Hprod by lia; lia |].
      intros r e Hr. destruct (Hkeys r e Hr) as (? & ? & _). by split.
Qed.

Lemma getFactorization_spec n :
  2 ≤ Z.abs n →
  getFactorization_run n = Some (getFactorization n)
  ∧ factors_product (getFactorization n) = Z.abs n
  ∧ prime_keys (getFactorization n).
Proof.
  intros Hn. unfold getFactorization.
  destruct (getFactorization_run_spec n Hn) as (f & -> & Hprod & Hkeys).
  split; [reflexivity |]. split; [exact Hprod | exact Hkeys].
Qed.

(** [getFactorization] never runs out of fuel. *)
Lemma getFactorization_terminates n :
  getFactorization_run n = Some (getFactorization n).
Proof.
  destruct (Z.lt_ge_cases (Z.abs n) 2) as [Hsmall | Hbig].
  - unfold getFactorization. by rewrite getFactorization_run_small.
  - by apply getFactorization_spec.
Qed.

(** ** Prime powers: the loops of [isPrimePower] terminate *)

Lemma strip_factor_terminates fuel p m :
  2 ≤ p → 1 ≤ m → (Z.to_nat m ≤ fuel)%nat → is_Some (strip_factor fuel p m).
Proof.
  intros Hp. revert m.
  induction fuel as [| fuel IH]; intros m Hm Hfuel; [lia |].
  cbn [strip_factor].
  destruct (Z.rem m p =? 0) eqn:Hrem; [| by eexists].
  apply rem_zero_divide in Hrem as [k Hk]; [| lia].
  assert (Hdiv : m / p = k) by (subst m; apply Z.div_mul; lia).
  apply IH; nia.
Qed.

Lemma isPrimePower_from_terminates fuel abs p :
  2 ≤ p ≤ abs + 1 → abs + 2 ≤ Z.of_nat fuel + p →
  is_Some (isPrimePower_from fuel abs p).
Proof.
  revert p. induction fuel as [| fuel IH]; intros p Hp Hfuel; [lia |].
  cbn [isPrimePower_from].
  destruct (Z.leb_spec p abs) as [Hle | Hgt]; [| by eexists].
  destruct (negb (truthy (index IS_PRIME p))); [apply IH; lia |].
  destruct (negb (Z.rem abs p =? 0)); [apply IH; lia |].
  destruct (strip_factor_terminates (Z.to_nat abs) p abs) as [m ->]; [lia | lia | lia |].
  by eexists.
Qed.

Lemma isPrimePower_terminates abs :
  isPrimePower_run abs = Some (isPrimePower abs).
Proof.
  unfold isPrimePower.
  assert (Hsome : is_Some (isPrimePower_run abs)).
  { unfold isPrimePower_run.
    destruct (Z.ltb_spec abs 2); [by eexists |].
    apply isPrimePower_from_terminates; lia. }
  by destruct Hsome as [b ->].
Qed.

(** ** Shapes of factorizations *)

Lemma key_divides_product (f : gmap Z Z) r e :
  f !! r = Some e → 1 ≤ e → (r | factors_product f).
Proof.
  intros Hr He. rewrite (factors_product_delete f r e Hr).
  apply Z.divide_mul_l, Z.divide_pow_same_r, He.
Qed.

Lemma prime_divides_product (f : gmap Z Z) q :
  Z.prime q → prime_keys f → (q | factors_product f) → is_Some (f !! q).
Proof.
  intros Hq. induction f as [| r e f Hfresh IH] using map_ind; intros Hkeys Hdvd.
  - rewrite factors_product_empty in Hdvd.
    apply Z.divide_1_r in Hdvd. pose proof (Z.prime_ge_2 q Hq). lia.
  - rewrite factors_product_insert in Hdvd by done.
    destruct (Hkeys r e (lookup_insert_eq _ _ _)) as [Hr He].
    apply (Z.divide_prime_mul _ _ q Hq) in Hdvd as [Hdvd | Hdvd].
    + apply (Z.divide_prime_pp q r e Hq Hr ltac:(lia)) in Hdvd.
      subst q. rewrite lookup_insert_eq. by eexists.
    + destruct IH as [e' He']; [| done |].
      * intros r' e' Hr'. apply (Hkeys r' e').
        rewrite lookup_insert_ne; [done |]. intros ->. congruence.
      * exists e'. rewrite lookup_insert_ne; [done |]. intros ->. congruence.
Qed.

Lemma pow_gt_base p e : 2 ≤ p → 2 ≤ e → p < p ^ e.
Proof.
  intros Hp He.
  replace e with (1 + (e - 1)) by lia.
  rewrite Z.pow_add_r, Z.pow_1_r by lia.
  pose proof (Z.pow_le_mono_r p 1 (e - 1) ltac:(lia) ltac:(lia)) as Hle.
  rewrite Z.pow_1_r in Hle. nia.
Qed.

Lemma pow_ge_base p e : 2 ≤ p → 1 ≤ e → p ≤ p ^ e.
Proof.
  intros Hp He. destruct (decide (e = 1)) as [-> | Hne].
  - rewrite Z.pow_1_r. lia.
  - pose proof (pow_gt_base p e Hp ltac:(lia)). lia.
Qed.

Lemma Object_keys_length (f : gmap Z Z) : length (Object_keys f) = size f.
Proof. unfold Object_keys. by rewrite length_fmap, length_map_to_list. Qed.

(** An object with one key. *)
Lemma one_key_inv (f : gmap Z Z) :
  size f = 1%nat → ∃ p q, f = {[p := q]} ∧ Object_keys f = [p].
Proof.
  intros Hsize. rewrite <- length_map_to_list in Hsize.
  destruct (map_to_list f) as [| [p q] [| ? ?]] eqn:Hlist; try done.
  exists p, q. split.
  - rewrite <- (list_to_map_to_list f), Hlist. cbn. apply insert_empty.
  - unfold Object_keys. by rewrite Hlist.
Qed.

(** An object with two keys. *)
Lemma two_keys_inv (f : gmap Z Z) :
  size f = 2%nat →
  ∃ p1 e1 p2 e2, p1 ≠ p2 ∧ f = <[p1 := e1]> {[p2 := e2]}
                 ∧ Object_values f = [e1; e2].
Proof.
  intros Hsize. rewrite <- length_map_to_list in Hsize.
  pose proof (NoDup_fst_map_to_list f) as Hnodup.
  destruct (map_to_list f) as [| [p1 e1] [| [p2 e2] [| ? ?]]] eqn:Hlist; try done.
  exists p1, e1, p2, e2. split; [| split].
  - cbn in Hnodup. apply NoDup_cons in Hnodup as [Hnotin _].
    intros ->. apply Hnotin. by left.
  - rewrite <- (list_to_map_to_list f), Hlist. cbn. by rewrite insert_empty.
  - unfold Object_values. by rewrite Hlist.
Qed.

(** The factorization of a prime power has the single key [p]. *)
Lemma prime_power_factors (f : gmap Z Z) p q :
  prime_keys f → Z.prime p → 1 ≤ q → factors_product f = p ^ q →
  f = {[p := q]}.
Proof.
  intros Hkeys Hp Hq Hprod.
  pose proof (Z.prime_ge_2 p Hp) as Hp2.
  assert (Honly : ∀ r e, f !! r = Some e → r = p).
  { intros r e Hr. destruct (Hkeys r e Hr) as [Hprime He].
    apply (Z.divide_prime_pp r p q); [done | done | lia |].
    rewrite <- Hprod. by apply (key_divides_product f r e). }
  destruct (prime_divides_product f p Hp Hkeys) as [e He].
  { rewrite Hprod. apply Z.divide_pow_same_r, Hq. }
  assert (Hf : f = {[p := e]}).
  { apply map_eq. intros r. destruct (decide (r = p)) as [-> | Hne].
    - by rewrite lookup_singleton_eq.
    - rewrite lookup_singleton_ne by done.
      destruct (f !! r) as [e' |] eqn:Hr; [| done].
      by apply Honly in Hr. }
  rewrite Hf in Hprod. rewrite factors_product_singleton in Hprod.
  destruct (Hkeys p e He) as [_ He1].
  apply Z.pow_inj_r in Hprod; [| lia | lia | lia]. by subst e.
Qed.

(** The factorization of a product of two distinct primes. *)
Lemma two_primes_factors (f : gmap Z Z) p1 p2 :
  prime_keys f → Z.prime p1 → Z.prime p2 → p1 ≠ p2 →
  factors_product f = p1 * p2 →
  f = <[p1 := 1]> {[p2 := 1]}.
Proof.
  intros Hkeys Hp1 Hp2 Hne Hprod.
  pose proof (Z.prime_ge_2 p1 Hp1) as Hp1ge.
  pose proof (Z.prime_ge_2 p2 Hp2) as Hp2ge.
  assert (Honly : ∀ r e, f !! r = Some e → r = p1 ∨ r = p2).
  { intros r e Hr. destruct (Hkeys r e Hr) as [Hprime He].
    pose proof (key_divides_product f r e Hr He) as Hdvd.
    rewrite Hprod in Hdvd.
    apply (Z.divide_prime_mul _ _ r Hprime) in Hdvd as [Hdvd | Hdvd].
    - left. by apply Z.divide_prime_prime.
    - right. by apply Z.divide_prime_prime. }
  destruct (prime_divides_product f p1 Hp1 Hkeys) as [e1 He1].
  { rewrite Hprod. by apply Z.divide_mul_l. }
  destruct (prime_divides_product f p2 Hp2 Hkeys) as [e2 He2].
  { rewrite Hprod. by apply Z.divide_mul_r. }
  assert (Hf : f = <[p1 := e1]> {[p2 := e2]}).
  { apply map_eq. intros r. destruct (decide (r = p1)) as [-> | Hne1].
    - by rewrite lookup_insert_eq.
    - rewrite lookup_insert_ne by done.
      destruct (decide (r = p2)) as [-> | Hne2].
      + by rewrite lookup_singleton_eq.
      + rewrite lookup_singleton_ne by done.
        destruct (f !! r) as [e' |] eqn:Hr; [| done].
        apply Honly in Hr. lia. }
  destruct (Hkeys p1 e1 He1) as [_ He1pos].
  destruct (Hkeys p2 e2 He2) as [_ He2pos].
  rewrite Hf in Hprod.
  rewrite factors_product_insert, factors_product_singleton in Hprod
    by by rewrite lookup_singleton_ne.
  pose proof (pow_ge_base p1 e1 Hp1ge He1pos) as Hge1.
  pose proof (pow_ge_base p2 e2 Hp2ge He2pos) as Hge2.
  assert (Hpow1 : p1 ^ e1 = p1) by nia.
  assert (Hpow2 : p2 ^ e2 = p2) by nia.
  assert (e1 = 1).
  { destruct (decide (e1 = 1)); [done |].
    pose proof (pow_gt_base p1 e1 Hp1ge ltac:(lia)). lia. }
  assert (e2 = 1).
  { destruct (decide (e2 = 1)); [done |].
    pose proof (pow_gt_base p2 e2 Hp2ge ltac:(lia)). lia. }
  by subst e1 e2.
Qed.

(** ** The colorless rule *)

Lemma rem_2_odd a : 0 ≤ a → (Z.rem a 2 =? 0) = negb (Z.odd a).
Proof.
  intros Ha. rewrite Z.rem_mod_nonneg, Zmod_odd by lia.
  by destruct (Z.odd a).
Qed.

Lemma prime_5 : Z.prime 5.
Proof. by apply primeb_spec. Qed.

Lemma prime_7 : Z.prime 7.
Proof. by apply primeb_spec. Qed.

Lemma prime_power_not_prime p q : Z.prime p → 2 ≤ q → ¬ Z.prime (p ^ q).
Proof.
  intros Hp Hq [_ Hdiv]. pose proof (Z.prime_ge_2 p Hp).
  apply (Hdiv p).
  - split; [lia | by apply pow_gt_base].
  - apply Z.divide_pow_same_r. lia.
Qed.

Lemma product_not_prime p1 p2 : 2 ≤ p1 → 2 ≤ p2 → ¬ Z.prime (p1 * p2).
Proof.
  intros H1 H2 [_ Hdiv]. apply (Hdiv p1); [nia |]. by apply Z.divide_mul_l.
Qed.

Lemma odd_prime_ge_3 q : Z.prime q → Z.odd q = true → 3 ≤ q.
Proof.
  intros Hq Hodd. pose proof (Z.prime_ge_2 q Hq).
  destruct (decide (q = 2)) as [-> | ?]; [done | lia].
Qed.

(** Exponents of numbers in the exact range index the sieve table. *)
Lemma exponent_in_table p q :
  2 ≤ p → 0 ≤ q → p ^ q ≤ MAX_SAFE_INTEGER → q ≤ MAX_N.
Proof.
  intros Hp Hq Hle.
  destruct (Z.le_gt_cases 53 q) as [Hbig | Hsmall]; [exfalso | unfold MAX_N; lia].
  pose proof (Z.pow_le_mono_l 2 p q ltac:(lia)) as H1.
  pose proof (Z.pow_le_mono_r 2 53 q ltac:(lia) Hbig) as H2.
  unfold MAX_SAFE_INTEGER in Hle. lia.
Qed.

Lemma isColorless_even n : Z.even n = true → isColorless n = false.
Proof.
  intros Heven. unfold isColorless.
  assert (Hrem : (Z.rem (Z.abs n) 2 =? 0) = true).
  { rewrite rem_2_odd by lia. rewrite <- Z.negb_even.
    replace (Z.even (Z.abs n)) with (Z.even n) by by destruct n.
    by rewrite Heven. }
  rewrite Hrem. by repeat case_match.
Qed.

(** What a [true] answer of [isColorless] says about the magnitude. *)
Lemma isColorless_true_inv n :
  isColorless n = true →
  odd_composite (Z.abs n) ∧ (Z.abs n ∉ [2; 3; 5; 7])
  ∧ (odd_prime_power (Z.abs n) ∨ two_distinct_primes (Z.abs n)).
Proof.
  unfold isColorless. generalize (Z.abs_nonneg n). generalize (Z.abs n). intros a Ha.
  destruct (Z.ltb_spec a 2) as [| Ha2]; [done |]. cbn [orb].
  destruct (truthy (index IS_PRIME a)) eqn:Hsieve; [done |].
  destruct ((a =? 2) || (a =? 3) || (a =? 5) || (a =? 7)) eqn:Hsmall; [done |].
  destruct (Z.rem a 2 =? 0) eqn:Hrem; [done |].
  rewrite rem_2_odd in Hrem by lia. apply negb_false_iff in Hrem.
  destruct (getFactorization_spec a) as (_ & Hprod & Hkeys); [lia |].
  rewrite (Z.abs_eq a) in Hprod by lia.
  revert Hprod Hkeys. generalize (getFactorization a). intros f Hprod Hkeys Hcode.
  assert (Hshape : odd_prime_power a ∨ two_distinct_primes a).
  { destruct (prime_power_rule f (Object_keys f)) as [b |] eqn:Hrule.
    - subst b. unfold prime_power_rule in Hrule.
      destruct (length (Object_keys f) =? 1)%nat eqn:Hlen; [| done].
      apply Nat.eqb_eq in Hlen. rewrite Object_keys_length in Hlen.
      destruct (one_key_inv f Hlen) as (p & q & Hf & Hk).
      assert (Hpq : f !! p = Some q) by (rewrite Hf; apply lookup_singleton_eq).
      rewrite Hk, Hpq in Hrule.
      destruct (truthy (index IS_PRIME q)) eqn:Hq; [| done].
      destruct (Z.rem q 2 =? 0) eqn:Hq2; [done |].
      destruct (Hkeys p q Hpq) as [Hp Hq1].
      rewrite rem_2_odd in Hq2 by lia. apply negb_false_iff in Hq2.
      left. exists p, q.
      split; [exact Hp |]. split; [by apply IS_PRIME_sound |]. split; [exact Hq2 |].
      by rewrite <- Hprod, Hf, factors_product_singleton.
    - destruct (foldl Z.add 0 (Object_values f) =? 2) eqn:Htot; [| done].
      destruct (length (Object_keys f) =? 2)%nat eqn:Hlen; [| done].
      apply Nat.eqb_eq in Hlen. rewrite Object_keys_length in Hlen.
      destruct (two_keys_inv f Hlen) as (p1 & e1 & p2 & e2 & Hne & Hf & Hvals).
      rewrite Hvals in Htot. cbn in Htot. apply Z.eqb_eq in Htot.
      assert (H1 : f !! p1 = Some e1) by (rewrite Hf; apply lookup_insert_eq).
      assert (H2 : f !! p2 = Some e2).
      { rewrite Hf, lookup_insert_ne by done. apply lookup_singleton_eq. }
      destruct (Hkeys p1 e1 H1) as [Hp1 He1].
      destruct (Hkeys p2 e2 H2) as [Hp2 He2].
      assert (e1 = 1) by lia. assert (e2 = 1) by lia. subst e1 e2.
      right. exists p1, p2.
      split; [exact Hp1 |]. split; [exact Hp2 |]. split; [exact Hne |].
      rewrite <- Hprod, Hf, factors_product_insert, factors_product_singleton
        by by rewrite lookup_singleton_ne.
      by rewrite !Z.pow_1_r. }
  split; [| split; [| exact Hshape]].
  - split; [lia |]. split; [exact Hrem |].
    destruct Hshape as [(p & q & Hp & Hq & Hqodd & ->) | (p1 & p2 & Hp1 & Hp2 & _ & ->)].
    + apply prime_power_not_prime; [done |].
      pose proof (odd_prime_ge_3 q Hq Hqodd). lia.
    + apply product_not_prime; by apply Z.prime_ge_2.
  - rewrite !orb_false_iff, !Z.eqb_neq in Hsmall.
    rewrite !elem_of_cons, elem_of_nil. lia.
Qed.

(** Conversely, the two shapes are recognised. *)
Lemma isColorless_intro n :
  Z.abs n ≤ MAX_SAFE_INTEGER →
  odd_composite (Z.abs n) →
  odd_prime_power (Z.abs n) ∨ two_distinct_primes (Z.abs n) →
  isColorless n = true.
Proof.
  unfold isColorless. generalize (Z.abs_nonneg n). generalize (Z.abs n).
  intros a Ha Hsafe (Ha1 & Hodd & Hnotprime) Hshape.
  destruct (Z.ltb_spec a 2) as [| Ha2]; [lia |]. cbn [orb].
  destruct (truthy (index IS_PRIME a)) eqn:Hsieve.
  { exfalso. by apply Hnotprime, IS_PRIME_sound. }
  assert (Hsmall : (a =? 2) || (a =? 3) || (a =? 5) || (a =? 7) = false).
  { rewrite !orb_false_iff, !Z.eqb_neq.
    repeat split; intros ->; apply Hnotprime;
      [apply Z.prime_2 | apply Z.prime_3 | apply prime_5 | apply prime_7]. }
  rewrite Hsmall, rem_2_odd, Hodd by lia. cbn [negb].
  destruct (getFactorization_spec a) as (_ & Hprod & Hkeys); [lia |].
  rewrite (Z.abs_eq a) in Hprod by lia.
  revert Hprod Hkeys. generalize (getFactorization a). intros f Hprod Hkeys.
  destruct Hshape as [(p & q & Hp & Hq & Hqodd & Hpow) | (p1 & p2 & Hp1 & Hp2 & Hne & Hmul)].
  - pose proof (Z.prime_ge_2 p Hp) as Hp2. pose proof (Z.prime_ge_2 q Hq) as Hq2.
    assert (Hf : f = {[p := q]}).
    { apply prime_power_factors; [done | done | lia | congruence]. }
    assert (Htable : truthy (index IS_PRIME q) = true).
    { apply IS_PRIME_spec; [| done]. split; [lia |].
      apply (exponent_in_table p q); [lia | lia | by rewrite <- Hpow]. }
    subst f. unfold Object_keys, prime_power_rule.
    rewrite map_to_list_singleton. cbn [fmap list_fmap fst length Nat.eqb].
    rewrite lookup_singleton_eq, Htable, rem_2_odd, Hqodd by lia. reflexivity.
  - assert (Hf : f = <[p1 := 1]> {[p2 := 1]}).
    { apply two_primes_factors; [done | done | done | done | congruence]. }
    assert (Hsize : size f = 2%nat).
    { rewrite Hf, map_size_insert_None, map_size_singleton; [done |].
      by rewrite lookup_singleton_ne. }
    destruct (two_keys_inv f Hsize) as (r1 & e1 & r2 & e2 & Hr & Hf' & Hvals).
    assert (Hones : ∀ r e, f !! r = Some e → e = 1).
    { intros r e. rewrite Hf. intros [[_ <-] | [_ Hr2]]%lookup_insert_Some; [done |].
      by apply lookup_singleton_Some in Hr2 as [_ <-]. }
    assert (e1 = 1) by (apply (Hones r1); rewrite Hf'; apply lookup_insert_eq).
    assert (e2 = 1).
    { apply (Hones r2). rewrite Hf', lookup_insert_ne by done. apply lookup_singleton_eq. }
    subst e1 e2.
    unfold prime_power_rule. rewrite Hvals, Object_keys_length, Hsize. reflexivity.
Qed.

(** C3.  On the integers JavaScript represents exactly, [isColorless(n)]
    is true if and only if [|n|] is an odd composite other than 2, 3, 5, 7
    and either (a) [|n| = p ^ q] for a prime [p] and an odd prime exponent
    [q], or (b) [|n|] is the product of two distinct primes; everything
    else (even numbers, primes, 0, 1, the other odd composites) is not
    colorless, and in particular 9, with exponent 2, is not. *)
Theorem isColorless_spec (n : Z) :
  Z.abs n ≤ MAX_SAFE_INTEGER →
  (isColorless n = true ↔
     odd_composite (Z.abs n) ∧ (Z.abs n ∉ [2; 3; 5; 7])
     ∧ (odd_prime_power (Z.abs n) ∨ two_distinct_primes (Z.abs n)))
  ∧ isColorless 9 = false
  ∧ isColorless (-9) = false.
Proof.
  intros Hsafe. split; [| by vm_compute].
  split; [apply isColorless_true_inv |].
  intros (Hcomposite & _ & Hshape). by apply isColorless_intro.
Qed.

Lemma isColorless_spec_at_minus_27 :
  Z.abs (-27) ≤ MAX_SAFE_INTEGER
  ∧ (isColorless (-27) = true ↔
       odd_composite (Z.abs (-27)) ∧ (Z.abs (-27) ∉ [2; 3; 5; 7])
       ∧ (odd_prime_power (Z.abs (-27)) ∨ two_distinct_primes (Z.abs (-27)))).
Proof.
  assert (Hsafe : Z.abs (-27) ≤ MAX_SAFE_INTEGER) by (vm_compute; discriminate).
  split; [exact Hsafe |].
  exact (proj1 (isColorless_spec (-27) Hsafe)).
Defined.

(** * Further properties of the engine *)

(** ** The tables *)

(** X1.  The sieve loops finish within their fuel; the table has
    [MAX_N + 1] entries, entry [i] says whether [i] is prime, and a read
    outside [0 .. MAX_N] is [undefined]. *)
Theorem sieve_table_correct (i : Z) :
  sieve = Some IS_PRIME
  ∧ length IS_PRIME = Z.to_nat (MAX_N + 1)
  ∧ (0 ≤ i ≤ MAX_N → index IS_PRIME i = Some (bool_decide (Z.prime i)))
  ∧ (¬ 0 ≤ i ≤ MAX_N → index IS_PRIME i = None).
Proof.
  split; [exact sieve_terminates |]. split; [exact IS_PRIME_length |]. split.
  - intros Hi. pose proof (IS_PRIME_spec i Hi) as Hspec.
    assert (Hsome : is_Some (index IS_PRIME i)).
    { unfold index. destruct (Z.ltb_spec i 0); [lia |].
      apply lookup_lt_is_Some_2. rewrite IS_PRIME_length. unfold MAX_N in *. lia. }
    destruct Hsome as [b Hb]. rewrite Hb in *. cbn in Hspec. f_equal.
    destruct b.
    + symmetry. apply bool_decide_eq_true. by apply Hspec.
    + symmetry. apply bool_decide_eq_false. intros Hp. by apply Hspec in Hp.
  - intros Hi. destruct (Z.lt_ge_cases i 0); [by apply index_neg_None |].
    apply index_IS_PRIME_beyond. lia.
Qed.

Lemma sieve_table_correct_at_97 :
  0 ≤ 97 ≤ MAX_N ∧ index IS_PRIME 97 = Some (bool_decide (Z.prime 97)).
Proof.
  assert (Hi : 0 ≤ 97 ≤ MAX_N) by (unfold MAX_N; lia).
  split; [exact Hi |].
  destruct (sieve_table_correct 97) as (_ & _ & Hin & _). exact (Hin Hi).
Defined.

(** X2.  Entry [i] of [PRIME_COUNT] is the number of primes up to [i]. *)
Theorem prime_count_table_correct (i : Z) :
  0 ≤ i ≤ MAX_N →
  index PRIME_COUNT i = Some (Z.of_nat (length (primes_upto i)))
  ∧ NoDup (primes_upto i)
  ∧ ∀ p, p ∈ primes_upto i ↔ Z.prime p ∧ p ≤ i.
Proof.
  intros Hi. split; [by apply PRIME_COUNT_spec |].
  split; [apply NoDup_primes_upto | intros p; apply elem_of_primes_upto].
Qed.

Lemma prime_count_table_correct_at_100 :
  0 ≤ 100 ≤ MAX_N ∧ index PRIME_COUNT 100 = Some (Z.of_nat (length (primes_upto 100))).
Proof.
  assert (Hi : 0 ≤ 100 ≤ MAX_N) by (unfold MAX_N; lia).
  split; [exact Hi | exact (proj1 (prime_count_table_correct 100 Hi))].
Defined.

(** ** Factorization *)

(** X3.  Trial division always finishes within its fuel; magnitudes below 2
    give the empty object, and for every other [n] that JavaScript
    represents exactly the keys are primes, the exponents are positive and
    the product of the [p ^ e] is [|n|]. *)
Theorem getFactorization_round_trip (n : Z) :
  getFactorization_run n = Some (getFactorization n)
  ∧ (Z.abs n < 2 → getFactorization n = ∅)
  ∧ (2 ≤ Z.abs n ≤ MAX_SAFE_INTEGER →
     factors_product (getFactorization n) = Z.abs n
     ∧ ∀ p e, getFactorization n !! p = Some e → Z.prime p ∧ 1 ≤ e).
Proof.
  split; [apply getFactorization_terminates |]. split.
  - intros Hn. unfold getFactorization. by rewrite getFactorization_run_small.
  - intros [Hn _]. destruct (getFactorization_spec n Hn) as (_ & Hprod & Hkeys).
    split; [exact Hprod | exact Hkeys].
Qed.

Lemma getFactorization_round_trip_at_minus_360 :
  2 ≤ Z.abs (-360) ≤ MAX_SAFE_INTEGER
  ∧ factors_product (getFactorization (-360)) = Z.abs (-360).
Proof.
  assert (Hn : 2 ≤ Z.abs (-360) ≤ MAX_SAFE_INTEGER) by (vm_compute; split; discriminate).
  split; [exact Hn |].
  destruct (getFactorization_round_trip (-360)) as (_ & _ & Hbig).
  exact (proj1 (Hbig Hn)).
Defined.

Lemma prime_not_divides_rest (f : gmap Z Z) p e :
  prime_keys f → f !! p = Some e → ¬ (p | factors_product (delete p f)).
Proof.
  intros Hkeys Hp Hdvd. destruct (Hkeys p e Hp) as [Hprime _].
  destruct (prime_divides_product (delete p f) p Hprime) as [e' He']; [| done |].
  - intros r e' Hr. apply lookup_delete_Some in Hr as [_ Hr]. by apply (Hkeys r e').
  - by rewrite lookup_delete_eq in He'.
Qed.

(** X4.  For [2 <= |n| <= Number.MAX_SAFE_INTEGER] the keys of the factorization are exactly the prime
    divisors of [n], and the exponent stored under [p] is the multiplicity
    of [p] in [n]. *)
Theorem getFactorization_keys (n p : Z) :
  2 ≤ Z.abs n ≤ MAX_SAFE_INTEGER →
  (is_Some (getFactorization n !! p) ↔ Z.prime p ∧ (p | n))
  ∧ ∀ e, getFactorization n !! p = Some e → (p ^ e | n) ∧ ¬ (p ^ (e + 1) | n).
Proof.
  intros [Hn _]. destruct (getFactorization_spec n Hn) as (_ & Hprod & Hkeys).
  revert Hprod Hkeys. generalize (getFactorization n). intros f Hprod Hkeys.
  split.
  - split.
    + intros [e He]. destruct (Hkeys p e He) as [Hprime He1].
      split; [exact Hprime |]. apply Z.divide_abs_r. rewrite <- Hprod.
      by apply (key_divides_product f p e).
    + intros [Hprime Hdvd]. apply prime_divides_product; [done | done |].
      rewrite Hprod. by apply Z.divide_abs_r.
  - intros e He. destruct (Hkeys p e He) as [Hprime He1].
    pose proof (Z.prime_ge_2 p Hprime) as Hp2.
    pose proof (factors_product_delete f p e He) as Hsplit.
    rewrite Hprod in Hsplit.
    split.
    + apply Z.divide_abs_r. rewrite Hsplit. by apply Z.divide_mul_l.
    + intros Hdvd%Z.divide_abs_r. rewrite Hsplit in Hdvd.
      apply (prime_not_divides_rest f p e Hkeys He).
      rewrite Z.pow_add_r, Z.pow_1_r in Hdvd by lia.
      destruct Hdvd as [c Hc]. exists c.
      apply (Z.mul_cancel_l _ _ (p ^ e)); [| lia].
      pose proof (Z.pow_pos_nonneg p e ltac:(lia) ltac:(lia)). lia.
Qed.

Lemma getFactorization_keys_at_360 :
  2 ≤ Z.abs 360 ≤ MAX_SAFE_INTEGER
  ∧ (is_Some (getFactorization 360 !! 3) ↔ Z.prime 3 ∧ (3 | 360)).
Proof.
  assert (Hn : 2 ≤ Z.abs 360 ≤ MAX_SAFE_INTEGER) by (vm_compute; split; discriminate).
  split; [exact Hn | exact (proj1 (getFactorization_keys 360 3 Hn))].
Defined.

(** ** Waves *)

Lemma mod_zero_divide a b : 0 < b → a mod b = 0 ↔ (b | a).
Proof. intros Hb. apply Z.mod_divide. lia. Qed.

Lemma waveLeft_extremes n k :
  0 < k →
  (waveLeft n k = k ↔ (2 * k | n)) ∧ (waveLeft n k = 0 ↔ (2 * k | n - k)).
Proof.
  intros Hk.
  rewrite waveLeft_mod by done.
  pose proof (Z.mod_pos_bound n (2 * k) ltac:(lia)) as Hr.
  rewrite <- !mod_zero_divide by lia.
  split.
  - lia.
  - split.
    + intros Hw. assert (Hrk : n mod (2 * k) = k) by lia.
      rewrite Zminus_mod, Hrk, (Z.mod_small k) by lia.
      rewrite Z.sub_diag. apply Z.mod_0_l. lia.
    + intros Hz.
      assert (Hn : n mod (2 * k) = k).
      { replace n with ((n - k) + k) by lia.
        rewrite <- Zplus_mod_idemp_l, Hz. cbn. apply Z.mod_small. lia. }
      lia.
Qed.

(** X5.  For [k > 0], [waveLeft(n, k)] stays in [0 .. k], ignores the sign
    of [n], has period [2k], peaks (value [k]) exactly at the multiples of
    [2k] and bottoms out (value 0) exactly at the odd multiples of [k]. *)
Theorem waveLeft_triangle (n k : Z) :
  0 < k →
  0 ≤ waveLeft n k ≤ k
  ∧ waveLeft (- n) k = waveLeft n k
  ∧ waveLeft (n + 2 * k) k = waveLeft n k
  ∧ (waveLeft n k = k ↔ (2 * k | n))
  ∧ (waveLeft n k = 0 ↔ (2 * k | n - k)).
Proof.
  intros Hk.
  split; [by apply waveLeft_range |].
  split; [apply waveLeft_opp |].
  split; [| by apply waveLeft_extremes].
  replace (n + 2 * k) with (n + 1 * (2 * k)) by lia. by apply waveLeft_periodic.
Qed.

Lemma waveLeft_triangle_at_minus_9_5 :
  0 < 5
  ∧ 0 ≤ waveLeft (-9) 5 ≤ 5
  ∧ waveLeft (-9 + 2 * 5) 5 = waveLeft (-9) 5.
Proof.
  assert (Hk : 0 < 5) by lia.
  split; [exact Hk |].
  destruct (waveLeft_triangle (-9) 5 Hk) as (Hrange & _ & Hperiod & _).
  split; [exact Hrange | exact Hperiod].
Defined.

(** ** Splits *)

Lemma divide_6_10_14 n : (6 | n) ∧ (10 | n) ∧ (14 | n) ↔ (210 | n).
Proof.
  change 210 with (Z.lcm (Z.lcm 6 10) 14).
  rewrite !Z.lcm_divide_iff. tauto.
Qed.

Lemma divide_shift a b c n : (a | c - b) → (a | n - b) ↔ (a | n - c).
Proof.
  intros Hcb. split; intros Hn.
  - replace (n - c) with ((n - b) - (c - b)) by lia. by apply Z.divide_sub_r.
  - replace (n - b) with ((n - c) + (c - b)) by lia. by apply Z.divide_add_r.
Qed.

(** X6.  [baseL] lies in [0 .. 15]; it is 15 exactly at the multiples of
    210 and 0 exactly at the odd multiples of 105.  Hence in dimension 0
    the split "17|0" occurs at the multiples of 210 and nowhere else. *)
Theorem baseL_extremes (n d : Z) :
  0 ≤ baseL (getSplit n d) ≤ 15
  ∧ (baseL (getSplit n d) = 15 ↔ (210 | n))
  ∧ (baseL (getSplit n d) = 0 ↔ (210 | n - 105))
  ∧ (L (getSplit n 0) = Num 17 ↔ (210 | n)).
Proof.
  pose proof (baseL_range n d) as Hrange.
  pose proof (waveLeft_range n 3 ltac:(lia)) as H3.
  pose proof (waveLeft_range n 5 ltac:(lia)) as H5.
  pose proof (waveLeft_range n 7 ltac:(lia)) as H7.
  destruct (waveLeft_extremes n 3 ltac:(lia)) as (Hmax3 & Hmin3).
  destruct (waveLeft_extremes n 5 ltac:(lia)) as (Hmax5 & Hmin5).
  destruct (waveLeft_extremes n 7 ltac:(lia)) as (Hmax7 & Hmin7).
  assert (Hmax : waveLeft n 3 + waveLeft n 5 + waveLeft n 7 = 15 ↔ (210 | n)).
  { rewrite <- divide_6_10_14.
    change (2 * 3) with 6 in Hmax3. change (2 * 5) with 10 in Hmax5.
    change (2 * 7) with 14 in Hmax7.
    rewrite <- Hmax3, <- Hmax5, <- Hmax7. lia. }
  split; [exact Hrange |]. split; [exact Hmax |]. split.
  - rewrite <- divide_6_10_14.
    rewrite <- (divide_shift 6 3 105 n), <- (divide_shift 10 5 105 n),
      <- (divide_shift 14 7 105 n);
      [| by exists 7 | by exists 10 | by exists 17].
    change (2 * 3) with 6 in Hmin3. change (2 * 5) with 10 in Hmin5.
    change (2 * 7) with 14 in Hmin7.
    rewrite <- Hmin3, <- Hmin5, <- Hmin7. cbn. lia.
  - rewrite <- Hmax. cbn. split; [intros [= Heq]; lia | intros Heq; f_equal; lia].
Qed.

(** X7.  Dimensions 3, 4, 5 are the mirror images of dimensions 0, 1, 2:
    the primary [L] and [R] are exchanged. *)
Theorem inverse_dimensions (n d : Z) :
  0 ≤ d ≤ 2 →
  L (getSplit n (d + 3)) = R (getSplit n d)
  ∧ R (getSplit n (d + 3)) = L (getSplit n d).
Proof.
  intros Hd.
  assert (Hcases : d = 0 ∨ d = 1 ∨ d = 2) by lia.
  destruct Hcases as [-> | [-> | ->]]; cbn; split; f_equal; lia.
Qed.

Lemma inverse_dimensions_at_11_1 :
  0 ≤ 1 ≤ 2 ∧ L (getSplit 11 (1 + 3)) = R (getSplit 11 1).
Proof.
  assert (Hd : 0 ≤ 1 ≤ 2) by lia.
  split; [exact Hd | exact (proj1 (inverse_dimensions 11 1 Hd))].
Defined.

(** ** Transparency *)

Lemma odd_of_nat_rem len : (Z.rem (Z.of_nat len) 2 =? 1) = Nat.odd len.
Proof.
  rewrite Z.rem_mod_nonneg, Zmod_odd by lia.
  replace (Z.odd (Z.of_nat len)) with (Nat.odd len).
  - by destruct (Nat.odd len).
  - induction len as [| len IH]; [done |].
    rewrite Nat2Z.inj_succ, Z.odd_succ, Nat.odd_succ.
    rewrite <- Z.negb_odd, <- Nat.negb_odd. by rewrite IH.
Qed.

Lemma isTransparent_parity m :
  1 ≤ m ≤ MAX_N → isTransparent m = Nat.odd (length (primes_upto m)).
Proof.
  intros Hm.
  destruct (decide (m = 1)) as [-> | Hne]; [reflexivity |].
  unfold isTransparent. rewrite Z.abs_eq by lia.
  rewrite PRIME_COUNT_spec by lia. cbn [of_lookup rem strict_eq Z.eqb].
  rewrite odd_of_nat_rem.
  destruct (Z.ltb_spec 1 m); [done | lia].
Qed.

(** X8.  Walking up the integers, transparency changes exactly at the
    primes: for [2 <= n <= MAX_N], [isTransparent(n)] differs from
    [isTransparent(n - 1)] if and only if [n] is prime. *)
Theorem isTransparent_toggles_at_primes (n : Z) :
  2 ≤ n ≤ MAX_N →
  isTransparent n ≠ isTransparent (n - 1) ↔ Z.prime n.
Proof.
  intros Hn.
  rewrite !isTransparent_parity by lia.
  replace n with ((n - 1) + 1) at 1 3 by lia.
  rewrite primes_upto_succ by lia.
  replace (n - 1 + 1) with n by lia.
  destruct (decide (Z.prime n)) as [Hp | Hp].
  - rewrite length_app. cbn [length]. rewrite Nat.add_1_r, Nat.odd_succ, <- Nat.negb_odd.
    split; [done |]. intros _. by destruct (Nat.odd (length (primes_upto (n - 1)))).
  - rewrite app_nil_r. split; [done | by intros ?].
Qed.

Lemma isTransparent_toggles_at_primes_at_13 :
  2 ≤ 13 ≤ MAX_N ∧ (isTransparent 13 ≠ isTransparent (13 - 1) ↔ Z.prime 13).
Proof.
  assert (Hn : 2 ≤ 13 ≤ MAX_N) by (unfold MAX_N; lia).
  split; [exact Hn | exact (isTransparent_toggles_at_primes 13 Hn)].
Defined.

(** ** Prime powers *)

Lemma strip_factor_spec fuel p m m' :
  2 ≤ p → 1 ≤ m → strip_factor fuel p m = Some m' →
  ∃ k, 0 ≤ k ∧ m = p ^ k * m'.
Proof.
  intros Hp. revert m.
  induction fuel as [| fuel IH]; intros m Hm Hrun; [done |].
  cbn [strip_factor] in Hrun.
  destruct (Z.rem m p =? 0) eqn:Hrem.
  - apply rem_zero_divide in Hrem as [c Hc]; [| lia].
    assert (Hdiv : m / p = c) by (subst m; apply Z.div_mul; lia).
    rewrite Hdiv in Hrun.
    destruct (IH c ltac:(nia) Hrun) as (k & Hk & Hck).
    exists (k + 1). split; [lia |].
    rewrite Z.pow_add_r, Z.pow_1_r by lia. subst m. rewrite Hck at 1. ring.
  - injection Hrun as <-. exists 0. split; [lia |]. rewrite Z.pow_0_r. lia.
Qed.

Lemma strip_factor_power p e :
  2 ≤ p → 0 ≤ e →
  ∀ fuel, (Z.to_nat (p ^ e) ≤ fuel)%nat → strip_factor fuel p (p ^ e) = Some 1.
Proof.
  intros Hp He. pattern e. apply natlike_ind; [| | exact He]; clear e He.
  - intros fuel Hfuel. rewrite Z.pow_0_r in *.
    destruct fuel as [| fuel]; [lia |]. cbn [strip_factor].
    rewrite Z.rem_small by lia. done.
  - intros e He IH fuel Hfuel.
    pose proof (Z.pow_pos_nonneg p e ltac:(lia) He) as Hpos.
    rewrite Z.pow_succ_r in * by done.
    destruct fuel as [| fuel]; [lia |]. cbn [strip_factor].
    assert (Hrem : (Z.rem (p * p ^ e) p =? 0) = true).
    { apply rem_zero_divide; [lia |]. by apply Z.divide_mul_l. }
    rewrite Hrem.
    replace (p * p ^ e / p) with (p ^ e)
      by (rewrite Z.mul_comm, Z.div_mul; lia).
    apply IH. nia.
Qed.

Lemma isPrimePower_from_true fuel abs p :
  2 ≤ p → isPrimePower_from fuel abs p = Some true →
  ∃ q e, Z.prime q ∧ q ≤ MAX_N ∧ 1 ≤ e ∧ abs = q ^ e.
Proof.
  revert p. induction fuel as [| fuel IH]; intros p Hp Hrun; [done |].
  cbn [isPrimePower_from] in Hrun.
  destruct (Z.leb_spec p abs) as [Hle | Hgt]; [| done].
  destruct (truthy (index IS_PRIME p)) eqn:Hsieve; cbn [negb] in Hrun;
    [| by apply (IH (p + 1)); [lia |]].
  destruct (Z.rem abs p =? 0) eqn:Hrem; cbn [negb] in Hrun;
    [| by apply (IH (p + 1)); [lia |]].
  destruct (strip_factor (Z.to_nat abs) p abs) as [m |] eqn:Hstrip; [| done].
  cbn in Hrun. injection Hrun as Hm. apply Z.eqb_eq in Hm. subst m.
  destruct (strip_factor_spec (Z.to_nat abs) p abs 1 Hp ltac:(lia) Hstrip) as (k & Hk & Habs).
  exists p, k. split; [by apply IS_PRIME_sound |]. split.
  - destruct (Z.le_gt_cases p MAX_N) as [| Hbig]; [done |].
    by rewrite index_IS_PRIME_beyond in Hsieve.
  - split; [| lia].
    destruct (decide (k = 0)) as [-> | ?]; [| lia].
    rewrite Z.pow_0_r in Habs. lia.
Qed.

Lemma isPrimePower_from_power fuel q e p :
  Z.prime q → q ≤ MAX_N → 1 ≤ e → 2 ≤ p ≤ q →
  q ^ e + 2 ≤ Z.of_nat fuel + p →
  isPrimePower_from fuel (q ^ e) p = Some true.
Proof.
  intros Hq Hmax He. pose proof (Z.prime_ge_2 q Hq) as Hq2.
  pose proof (pow_ge_base q e Hq2 He) as Hbase.
  revert p. induction fuel as [| fuel IH]; intros p Hp Hfuel; [lia |].
  cbn [isPrimePower_from].
  destruct (Z.leb_spec p (q ^ e)) as [_ | ?]; [| lia].
  destruct (decide (p = q)) as [-> | Hne].
  - assert (Hsieve : truthy (index IS_PRIME q) = true) by (apply IS_PRIME_spec; [lia | done]).
    assert (Hrem : (Z.rem (q ^ e) q =? 0) = true).
    { apply rem_zero_divide; [lia |]. apply Z.divide_pow_same_r. lia. }
    rewrite Hsieve, Hrem. cbn [negb].
    rewrite strip_factor_power by lia. done.
  - assert (Hskip : negb (truthy (index IS_PRIME p)) = true
                    ∨ negb (Z.rem (q ^ e) p =? 0) = true).
    { destruct (truthy (index IS_PRIME p)) eqn:Hsieve; [right | by left].
      destruct (Z.rem (q ^ e) p =? 0) eqn:Hrem; [exfalso | done].
      apply rem_zero_divide in Hrem; [| lia].
      apply IS_PRIME_sound in Hsieve.
      apply Hne, (Z.divide_prime_pp p q e); [done | done | lia | done]. }
    destruct (negb (truthy (index IS_PRIME p))); [apply IH; lia |].
    destruct Hskip as [? | ->]; [done |]. apply IH; lia.
Qed.

Lemma isPrimePower_iff (abs : Z) :
  isPrimePower abs = true ↔
  ∃ p e, Z.prime p ∧ p ≤ MAX_N ∧ 1 ≤ e ∧ abs = p ^ e.
Proof.
  unfold isPrimePower, isPrimePower_run. split.
  - destruct (Z.ltb_spec abs 2); [done |].
    destruct (isPrimePower_from (Z.to_nat abs) abs 2) as [[|] |] eqn:Hrun; [| done | done].
    intros _. by apply (isPrimePower_from_true (Z.to_nat abs) abs 2).
  - intros (p & e & Hp & Hmax & He & ->).
    pose proof (Z.prime_ge_2 p Hp) as Hp2.
    pose proof (pow_ge_base p e Hp2 He) as Hbase.
    destruct (Z.ltb_spec (p ^ e) 2); [lia |].
    rewrite isPrimePower_from_power; [done | done | done | done | lia | lia].
Qed.



(** ** The polarity axis *)

Lemma isTransparent_abs n : isTransparent (Z.abs n) = isTransparent n.
Proof. unfold isTransparent. by rewrite Z.abs_idemp. Qed.

(** X10.  The polarity axis is "ORIGIN" only for 0; for an even number it
    does not depend on the sign, for an odd number it always changes with
    the sign; the axes marked "(T)" are those of the transparent numbers;
    and "TOP"/"BOTTOM" are the axes of the even numbers other than 0. *)
Theorem getPolarityAxis_spec (n : Z) :
  (getPolarityAxis n = "ORIGIN"%string ↔ n = 0)
  ∧ (Z.even n = true → getPolarityAxis (- n) = getPolarityAxis n)
  ∧ (Z.odd n = true → getPolarityAxis (- n) ≠ getPolarityAxis n)
  ∧ (getPolarityAxis n ∈ ["TOP (T)"; "RIGHT+ (T)"; "LEFT− (T)"]%string
     ↔ isTransparent n = true)
  ∧ (getPolarityAxis n ∈ ["TOP (T)"; "BOTTOM (O)"]%string
     ↔ n ≠ 0 ∧ Z.even n = true).
Proof.
  assert (Heven : Z.even (Z.abs n) = Z.even n) by by destruct n.
  assert (Hzero : isTransparent 0 = false) by reflexivity.
  unfold getPolarityAxis. rewrite Z.abs_opp, !isTransparent_abs.
  rewrite rem_2_odd by lia. rewrite <- Z.negb_even, negb_involutive, Heven.
  destruct (Z.eqb_spec (Z.abs n) 0) as [Habs | Habs].
  - assert (n = 0) by lia. subst n.
    rewrite !elem_of_cons, elem_of_nil, Hzero.
    repeat split; try done; intuition discriminate.
  - assert (Hn : n ≠ 0) by lia.
    rewrite <- Z.negb_even.
    destruct (Z.even n) eqn:Hev; cbn [negb]; rewrite !elem_of_cons, elem_of_nil.
    + destruct (isTransparent n); repeat split; try done;
        intuition (discriminate || auto).
    + destruct (Z.leb_spec 0 n), (Z.leb_spec 0 (- n)); try lia;
        destruct (isTransparent n); repeat split; try done;
        intuition (discriminate || auto).
Qed.

Lemma getPolarityAxis_spec_at_minus_9 :
  Z.odd (-9) = true ∧ getPolarityAxis (- -9) ≠ getPolarityAxis (-9).
Proof.
  split; [reflexivity |].
  destruct (getPolarityAxis_spec (-9)) as (_ & _ & Hodd & _).
  apply Hodd. reflexivity.
Defined.

(** ** Color labels *)

Lemma valid_dimension_row d :
  valid_dimension d →
  ∃ c2 c3 c7, index shifts d = Some (c2, c3, c7) ∧ (c2, c3, c7) ∈ shifts.
Proof.
  intros Hd.
  destruct (valid_dimension_cases d Hd) as [-> | [-> | [-> | [-> | [-> | ->]]]]];
    eexists _, _, _; (split; [reflexivity |]); set_solver.
Qed.

Lemma abs_divide_self n k : Z.abs n = k → (k | n).
Proof. intros <-. apply Z.divide_abs_l. reflexivity. Qed.

Lemma abs_1_not_divide n k : Z.abs n = 1 → 1 < k → ¬ (k | n).
Proof.
  intros Hn Hk [c Hc]%Z.divide_abs_r. rewrite Hn in Hc.
  assert (Hcases : c ≤ 0 ∨ 1 ≤ c) by lia. destruct Hcases; nia.
Qed.

(** Case analysis along the tests of [getColorInfo], in source order.  In
    every case the context says whether [n] is 0 and which of 2, 3, 5, 7
    divide it; where the rows of [shifts] matter they are enumerated. *)
Ltac color_tests n :=
  repeat match goal with
    | H : (Z.rem (Z.abs n) ?k =? 0) = true |- _ =>
        apply (rem_abs_divide n k ltac:(lia)) in H
    | H : (Z.rem (Z.abs n) ?k =? 0) = false |- _ =>
        apply (rem_abs_not_divide n k ltac:(lia)) in H
    end.

Ltac color_rows Hrows :=
  try match goal with
    | |- context [index COLOR_MAP ?c] =>
        is_var c;
        repeat (apply elem_of_cons in Hrows as [[= -> -> ->] | Hrows]);
        [.. | by apply elem_of_nil in Hrows]
    end.

Ltac color_tree n Hrow Hrows :=
  unfold getColorInfo;
  try change (index shifts 0) with (Some (5, 6, 7));
  destruct (Z.eqb_spec (Z.abs n) 0) as [Habs0 | Habs0];
  [ assert (Hn0 : n = 0) by lia;
    assert (Hbig : ¬ 1 < Z.abs n) by lia;
    assert (H2 : (2 | n)) by (rewrite Hn0; apply Z.divide_0_r);
    assert (H3 : (3 | n)) by (rewrite Hn0; apply Z.divide_0_r);
    assert (H5 : (5 | n)) by (rewrite Hn0; apply Z.divide_0_r);
    assert (H7 : (7 | n)) by (rewrite Hn0; apply Z.divide_0_r)
  | assert (Hn0 : n ≠ 0) by lia;
    destruct (Z.eqb_spec (Z.abs n) 1) as [Habs1 | Habs1];
    [ assert (Hbig : ¬ 1 < Z.abs n) by lia;
      pose proof (abs_1_not_divide n 2 Habs1 ltac:(lia)) as H2;
      pose proof (abs_1_not_divide n 3 Habs1 ltac:(lia)) as H3;
      pose proof (abs_1_not_divide n 5 Habs1 ltac:(lia)) as H5;
      pose proof (abs_1_not_divide n 7 Habs1 ltac:(lia)) as H7
    | assert (Hbig : 1 < Z.abs n) by lia;
      rewrite Hrow; cbv beta iota;
      destruct (Z.rem (Z.abs n) 5 =? 0) eqn:H5;
      destruct (Z.rem (Z.abs n) 2 =? 0) eqn:H2;
      destruct (Z.rem (Z.abs n) 3 =? 0) eqn:H3;
      destruct (Z.rem (Z.abs n) 7 =? 0) eqn:H7;
      cbn [andb];
      [ destruct (Z.ltb_spec n 0) as [Hneg | Hneg]; cbn [combination_rule andb] ..
      | destruct (Z.ltb_spec n 0) as [Hneg | Hneg]; cbn [combination_rule andb];
        (destruct (Z.eqb_spec (Z.abs n) 2) as [Habs2 | Habs2];
         [exfalso; color_tests n; by apply H2, abs_divide_self |]);
        (destruct (Z.eqb_spec (Z.abs n) 3) as [Habs3 | Habs3];
         [exfalso; color_tests n; by apply H3, abs_divide_self |]);
        (destruct (Z.eqb_spec (Z.abs n) 7) as [Habs7 | Habs7];
         [exfalso; color_tests n; by apply H7, abs_divide_self |]);
        (destruct (isColorless n) eqn:Hcolorless;
         [| destruct (truthy (index IS_PRIME (Z.abs n))) eqn:Hsieve;
            [| destruct (isPrimePower (Z.abs n)) eqn:Hpower]]) ];
      color_tests n; color_rows Hrows ] ].

(** Closing a leaf [label = target ↔ statement]: the label is known and
    the statement is decided by the facts in the context. *)
Ltac color_leaf :=
  cbn; split;
  [ first [ discriminate | intros _; tauto ]
  | let HP := fresh in intros HP; first [ reflexivity | exfalso; tauto ] ].

(** X11.  The labels of the family of 5 and of the full product 2·3·7
    depend on divisibility alone, whatever the sign and the dimension:
    "Golden Brown" marks the nonzero multiples of 2, 3, 5 and 7 together,
    "Gold" the other nonzero multiples of 2 and 5, "Silver" the odd
    multiples of 5, and "Brown" the multiples of 2, 3 and 7 that are not
    multiples of 5. *)
Theorem divisibility_labels (n d : Z) :
  valid_dimension d →
  (returned_label (getColorInfo n d) = Some "Golden Brown"%string
     ↔ n ≠ 0 ∧ (2 | n) ∧ (3 | n) ∧ (5 | n) ∧ (7 | n))
  ∧ (returned_label (getColorInfo n d) = Some "Gold"%string
     ↔ n ≠ 0 ∧ (2 | n) ∧ (5 | n) ∧ ¬ ((3 | n) ∧ (7 | n)))
  ∧ (returned_label (getColorInfo n d) = Some "Silver"%string
     ↔ (5 | n) ∧ ¬ (2 | n))
  ∧ (returned_label (getColorInfo n d) = Some "Brown"%string
     ↔ (2 | n) ∧ (3 | n) ∧ (7 | n) ∧ ¬ (5 | n)).
Proof.
  intros Hd.
  destruct (valid_dimension_row d Hd) as (c2 & c3 & c7 & Hrow & Hrows).
  color_tree n Hrow Hrows; (split; [| split; [| split]]); color_leaf.
Qed.

Lemma divisibility_labels_at_minus_70 :
  valid_dimension 3
  ∧ returned_label (getColorInfo (-70) 3) = Some "Gold"%string.
Proof.
  assert (Hd : valid_dimension 3) by (unfold valid_dimension; lia).
  split; [exact Hd |].
  destruct (divisibility_labels (-70) 3 Hd) as (_ & Hgold & _).
  apply Hgold.
  assert (H3 : ¬ (3 | -70)) by (apply rem_abs_not_divide; [lia | reflexivity]).
  split; [lia |]. split; [by exists (-35) |]. split; [by exists (-14) | tauto].
Defined.

Lemma isColorless_sieve n :
  truthy (index IS_PRIME (Z.abs n)) = true → isColorless n = false.
Proof. intros Hsieve. unfold isColorless. by rewrite Hsieve, orb_true_r. Qed.

Lemma isColorless_divide_2 n : (2 | n) → isColorless n = false.
Proof.
  intros H2. apply isColorless_even.
  destruct H2 as [c ->]. by rewrite Z.even_mul, orb_true_r.
Qed.

Lemma sieve_iff a :
  truthy (index IS_PRIME a) = true ↔ Z.prime a ∧ a ≤ MAX_N.
Proof.
  split.
  - intros Hsieve. split; [by apply IS_PRIME_sound |].
    destruct (Z.le_gt_cases a MAX_N) as [| Hbig]; [done |].
    by rewrite index_IS_PRIME_beyond in Hsieve.
  - intros [Hp Hle]. apply IS_PRIME_spec; [| done].
    pose proof (Z.prime_ge_2 a Hp). lia.
Qed.

(** The labels of the fallback chain, in terms of the tests that reach
    them. *)
Lemma fallback_labels n d :
  valid_dimension d →
  let coprime := ¬ (2 | n) ∧ ¬ (3 | n) ∧ ¬ (5 | n) ∧ ¬ (7 | n) in
  (returned_label (getColorInfo n d) = Some "Colorless"%string
     ↔ 1 < Z.abs n ∧ coprime ∧ isColorless n = true)
  ∧ (returned_label (getColorInfo n d) = Some "Prime"%string
     ↔ 1 < Z.abs n ∧ coprime ∧ isColorless n = false
       ∧ truthy (index IS_PRIME (Z.abs n)) = true)
  ∧ (returned_label (getColorInfo n d) = Some "PrimePow"%string
     ↔ 1 < Z.abs n ∧ coprime ∧ isColorless n = false
       ∧ truthy (index IS_PRIME (Z.abs n)) = false
       ∧ isPrimePower (Z.abs n) = true)
  ∧ (returned_label (getColorInfo n d) = Some "Composite"%string
     ↔ 1 < Z.abs n ∧ coprime ∧ isColorless n = false
       ∧ truthy (index IS_PRIME (Z.abs n)) = false
       ∧ isPrimePower (Z.abs n) = false).
Proof.
  intros Hd coprime. subst coprime.
  destruct (valid_dimension_row d Hd) as (c2 & c3 & c7 & Hrow & Hrows).
  color_tree n Hrow Hrows; (split; [| split; [| split]]); cbn; split;
    first [ discriminate | reflexivity | tauto
          | intros _; repeat split; (assumption || tauto)
          | intros (_ & _ & ? & ? & ?); congruence
          | intros (_ & _ & ? & ?); congruence
          | intros (_ & _ & ?); congruence
          | intros; reflexivity ].
Qed.

Lemma isColorless_big n : isColorless n = true → 1 < Z.abs n.
Proof.
  unfold isColorless. destruct (Z.ltb_spec (Z.abs n) 2); [done | lia].
Qed.

(** X12.  In every valid dimension the label is "Prime" exactly for the
    numbers whose magnitude is a prime up to [MAX_N] other than 2, 3, 5
    and 7 (which carry a color of their own). *)
Theorem prime_label (n d : Z) :
  valid_dimension d →
  returned_label (getColorInfo n d) = Some "Prime"%string
  ↔ Z.prime (Z.abs n) ∧ Z.abs n ≤ MAX_N ∧ (Z.abs n ∉ [2; 3; 5; 7]).
Proof.
  intros Hd. destruct (fallback_labels n d Hd) as (_ & Hlabel & _).
  rewrite Hlabel, sieve_iff, !elem_of_cons, elem_of_nil. clear Hlabel. split.
  - intros (_ & (H2 & H3 & H5 & H7) & _ & Hp & Hle).
    split; [done |]. split; [done |].
    intros [Heq | [Heq | [Heq | [Heq | []]]]];
      apply abs_divide_self in Heq; tauto.
  - intros (Hp & Hle & Hnotin).
    pose proof (Z.prime_ge_2 _ Hp) as Hge.
    assert (Hk : ∀ k, Z.prime k → (k | n) → Z.abs n = k).
    { intros k Hk Hdvd. symmetry. apply Z.divide_prime_prime; [done | done |].
      by apply Z.divide_abs_r. }
    split; [lia |]. split.
    + repeat split; intros Hdvd; apply Hnotin;
        [ left; apply Hk; [apply Z.prime_2 | done]
        | right; left; apply Hk; [apply Z.prime_3 | done]
        | right; right; left; apply Hk; [apply prime_5 | done]
        | right; right; right; left; apply Hk; [apply prime_7 | done] ].
    + split; [| done]. apply isColorless_sieve, sieve_iff. done.
Qed.

Lemma prime_label_at_minus_11 :
  valid_dimension 4 ∧ returned_label (getColorInfo (-11) 4) = Some "Prime"%string.
Proof.
  assert (Hd : valid_dimension 4) by (unfold valid_dimension; lia).
  split; [exact Hd |].
  apply (prime_label (-11) 4 Hd).
  split; [by apply primeb_spec |].
  split; [by vm_compute |].
  rewrite !elem_of_cons, elem_of_nil. cbn. lia.
Defined.

(** X13.  In every valid dimension the label is "Colorless" exactly for the
    numbers that [isColorless] accepts and that are not multiples of 3, 5
    or 7: the divisibility colors take precedence over the colorless rule
    (15 is colorless for [isColorless] but labelled "Silver"). *)
Theorem colorless_label (n d : Z) :
  valid_dimension d →
  returned_label (getColorInfo n d) = Some "Colorless"%string
  ↔ isColorless n = true ∧ ¬ (3 | n) ∧ ¬ (5 | n) ∧ ¬ (7 | n).
Proof.
  intros Hd. destruct (fallback_labels n d Hd) as (Hlabel & _).
  rewrite Hlabel. clear Hlabel. split.
  - tauto.
  - intros (Hc & H3 & H5 & H7).
    split; [by apply isColorless_big |]. split; [| done].
    split; [| tauto]. intros H2. apply isColorless_divide_2 in H2. congruence.
Qed.

Lemma colorless_label_at_1331 :
  valid_dimension 0
  ∧ (returned_label (getColorInfo 1331 0) = Some "Colorless"%string
     ↔ isColorless 1331 = true ∧ ¬ (3 | 1331) ∧ ¬ (5 | 1331) ∧ ¬ (7 | 1331)).
Proof.
  assert (Hd : valid_dimension 0) by (unfold valid_dimension; lia).
  split; [exact Hd | exact (colorless_label 1331 0 Hd)].
Defined.

Lemma prime_power_unique p e p' e' :
  Z.prime p → Z.prime p' → 1 ≤ e → 1 ≤ e' → p ^ e = p' ^ e' → p = p' ∧ e = e'.
Proof.
  intros Hp Hp' He He' Heq.
  assert (p = p') as <-.
  { apply (Z.divide_prime_pp p p' e'); [done | done | lia |].
    rewrite <- Heq. apply Z.divide_pow_same_r. lia. }
  split; [done |]. pose proof (Z.prime_ge_2 p Hp).
  apply (Z.pow_inj_r p); [lia | lia | lia | done].
Qed.

Lemma prime_power_not_two_primes p e :
  Z.prime p → 0 ≤ e → ¬ two_distinct_primes (p ^ e).
Proof.
  intros Hp He (p1 & p2 & Hp1 & Hp2 & Hne & Heq). apply Hne.
  assert (p1 = p).
  { apply (Z.divide_prime_pp p1 p e); [done | done | done |].
    rewrite Heq. by apply Z.divide_mul_l. }
  assert (p2 = p).
  { apply (Z.divide_prime_pp p2 p e); [done | done | done |].
    rewrite Heq. by apply Z.divide_mul_r. }
  congruence.
Qed.

Lemma not_divide_2_odd n : ¬ (2 | n) → Z.odd (Z.abs n) = true.
Proof.
  intros H2. apply rem_abs_not_divide in H2; [| lia].
  rewrite rem_2_odd in H2 by lia. by apply negb_false_iff in H2.
Qed.

(** X14.  On the integers JavaScript represents exactly, and in every
    valid dimension, the label is "PrimePow" exactly when the magnitude is
    [p ^ e] for a prime [p] of the sieve table other than 2, 3, 5, 7 and an
    exponent [e >= 2] that is not an odd prime (odd prime exponents are
    "Colorless"). *)
Theorem primepow_label (n d : Z) :
  valid_dimension d →
  Z.abs n ≤ MAX_SAFE_INTEGER →
  returned_label (getColorInfo n d) = Some "PrimePow"%string
  ↔ ∃ p e, Z.prime p ∧ p ≤ MAX_N ∧ (p ∉ [2; 3; 5; 7]) ∧ 2 ≤ e
           ∧ ¬ (Z.prime e ∧ Z.odd e = true) ∧ Z.abs n = p ^ e.
Proof.
  intros Hd Hsafe. destruct (fallback_labels n d Hd) as (_ & _ & Hlabel & _).
  rewrite Hlabel. clear Hlabel. split.
  - intros (Hbig & (H2 & H3 & H5 & H7) & Hcolorless & Hsieve & Hpower).
    apply isPrimePower_iff in Hpower as (p & e & Hp & Hle & He & Habs).
    pose proof (Z.prime_ge_2 p Hp) as Hp2.
    assert (He2 : 2 ≤ e).
    { destruct (decide (e = 1)) as [-> | ?]; [| lia].
      rewrite Z.pow_1_r in Habs.
      assert (truthy (index IS_PRIME (Z.abs n)) = true)
        by (apply sieve_iff; by rewrite Habs).
      congruence. }
    assert (Hpn : (p | n)).
    { apply Z.divide_abs_r. rewrite Habs. apply Z.divide_pow_same_r. lia. }
    exists p, e. split; [done |]. split; [done |]. split.
    { rewrite !elem_of_cons, elem_of_nil.
      intros [-> | [-> | [-> | [-> | []]]]]; contradiction. }
    split; [done |]. split; [| done].
    intros [Hprime Hodd].
    assert (isColorless n = true); [| congruence].
    apply isColorless_intro; [done | | ].
    + split; [done |]. split; [by apply not_divide_2_odd |].
      rewrite Habs. by apply prime_power_not_prime.
    + left. by exists p, e.
  - intros (p & e & Hp & Hle & Hnotin & He & Hexp & Habs).
    pose proof (Z.prime_ge_2 p Hp) as Hp2.
    pose proof (pow_gt_base p e Hp2 He) as Hgt.
    rewrite !elem_of_cons, elem_of_nil in Hnotin.
    assert (Hk : ∀ k, Z.prime k → (k | n) → k = p).
    { intros k Hk Hdvd. apply (Z.divide_prime_pp k p e); [done | done | lia |].
      rewrite <- Habs. by apply Z.divide_abs_r. }
    split; [lia |]. split.
    { repeat split; intros Hdvd;
        [ apply Hk in Hdvd; [| apply Z.prime_2]
        | apply Hk in Hdvd; [| apply Z.prime_3]
        | apply Hk in Hdvd; [| apply prime_5]
        | apply Hk in Hdvd; [| apply prime_7] ]; lia. }
    split.
    { destruct (isColorless n) eqn:Hc; [exfalso | done].
      apply isColorless_true_inv in Hc as (_ & _ & Hshape). rewrite Habs in Hshape.
      destruct Hshape as [(p' & q & Hp' & Hq & Hodd & Heq) | Htwo].
      - pose proof (Z.prime_ge_2 q Hq).
        apply prime_power_unique in Heq as [_ ->]; [| done | done | lia | lia].
        tauto.
      - by apply (prime_power_not_two_primes p e Hp ltac:(lia)). }
    split.
    { destruct (truthy (index IS_PRIME (Z.abs n))) eqn:Hsieve; [exfalso | done].
      apply IS_PRIME_sound in Hsieve. rewrite Habs in Hsieve.
      by apply (prime_power_not_prime p e). }
    apply isPrimePower_iff. exists p, e.
    split; [done |]. split; [done |]. split; [lia | done].
Qed.

Lemma primepow_label_at_121 :
  valid_dimension 0 ∧ Z.abs 121 ≤ MAX_SAFE_INTEGER
  ∧ returned_label (getColorInfo 121 0) = Some "PrimePow"%string.
Proof.
  assert (Hd : valid_dimension 0) by (unfold valid_dimension; lia).
  assert (Hsafe : Z.abs 121 ≤ MAX_SAFE_INTEGER) by (vm_compute; discriminate).
  split; [exact Hd |]. split; [exact Hsafe |].
  apply (primepow_label 121 0 Hd Hsafe).
  exists 11, 2.
  split; [by apply primeb_spec |]. split; [by vm_compute |].
  split; [rewrite !elem_of_cons, elem_of_nil; lia |].
  split; [lia |]. split; [| reflexivity].
  intros [_ Hodd]. discriminate Hodd.
Defined.

(** X15.  The dimension only permutes the three base colors.  In a valid
    dimension the label is "Blue", "Yellow" or "Red" exactly for the
    numbers that are not multiples of 5 and are either positive with exactly
    one of 2, 3, 7 as a divisor or negative with exactly two of them; every
    other number gets the same color record in all valid dimensions. *)
Theorem dimension_moves_base_colors (n d : Z) :
  valid_dimension d →
  let one := ((2 | n) ∧ ¬ (3 | n) ∧ ¬ (7 | n)) ∨ (¬ (2 | n) ∧ (3 | n) ∧ ¬ (7 | n))
             ∨ (¬ (2 | n) ∧ ¬ (3 | n) ∧ (7 | n)) in
  let two := ((2 | n) ∧ (3 | n) ∧ ¬ (7 | n)) ∨ ((2 | n) ∧ ¬ (3 | n) ∧ (7 | n))
             ∨ (¬ (2 | n) ∧ (3 | n) ∧ (7 | n)) in
  let base := ¬ (5 | n) ∧ ((0 < n ∧ one) ∨ (n < 0 ∧ two)) in
  (returned_label (getColorInfo n d) ∈ [Some "Blue"; Some "Yellow"; Some "Red"]%string
     ↔ base)
  ∧ (¬ base → getColorInfo n d = getColorInfo n 0).
Proof.
  intros Hd one two base. subst one two base.
  destruct (valid_dimension_row d Hd) as (c2 & c3 & c7 & Hrow & Hrows).
  rewrite !elem_of_cons, elem_of_nil.
  color_tree n Hrow Hrows; cbn;
    try (assert (0 < n) by lia); try (assert (¬ 0 < n) by lia);
    try (assert (¬ n < 0) by lia);
    (split; [split |]);
    first [ reflexivity
          | intros; reflexivity
          | intros _; tauto
          | intros; exfalso; tauto
          | solve [intuition discriminate] ].
Qed.

Lemma dimension_moves_base_colors_at_25 :
  valid_dimension 5 ∧ getColorInfo 25 5 = getColorInfo 25 0.
Proof.
  assert (Hd : valid_dimension 5) by (unfold valid_dimension; lia).
  split; [exact Hd |].
  apply (dimension_moves_base_colors 25 5 Hd).
  intros [H5 _]. apply H5. by exists 5.
Defined.

Lemma isColorless_opp n : isColorless (- n) = isColorless n.
Proof. unfold isColorless. by rewrite Z.abs_opp. Qed.

(** X16.  The sign matters only for the multiples of one or two of 2, 3,
    7: in a valid dimension [n] and [-n] get the same color record exactly
    when [n] is a multiple of 5, or of all of 2, 3, 7, or of none of them. *)
Theorem sign_sensitivity (n d : Z) :
  valid_dimension d →
  getColorInfo (- n) d = getColorInfo n d
  ↔ (5 | n) ∨ ((2 | n) ∧ (3 | n) ∧ (7 | n)) ∨ (¬ (2 | n) ∧ ¬ (3 | n) ∧ ¬ (7 | n)).
Proof.
  intros Hd.
  destruct (valid_dimension_row d Hd) as (c2 & c3 & c7 & Hrow & Hrows).
  rewrite <- !rem_abs_not_divide, <- !rem_abs_divide by lia.
  unfold getColorInfo. rewrite Z.abs_opp, isColorless_opp, Hrow.
  destruct (Z.eqb_spec (Z.abs n) 0) as [Habs0 | Habs0].
  { rewrite Habs0. split; [intros _; by left | done]. }
  destruct (Z.eqb_spec (Z.abs n) 1) as [Habs1 | Habs1].
  { rewrite Habs1. split; [intros _; right; right; done | done]. }
  assert (Hneg : (- n <? 0) = negb (n <? 0)).
  { destruct (Z.ltb_spec (- n) 0), (Z.ltb_spec n 0); try done; lia. }
  rewrite Hneg. clear Hneg.
  generalize (isColorless n) (isPrimePower (Z.abs n)) (truthy (index IS_PRIME (Z.abs n))).
  generalize (Z.abs n =? 2) (Z.abs n =? 3) (Z.abs n =? 7).
  generalize (Z.rem (Z.abs n) 2 =? 0) (Z.rem (Z.abs n) 3 =? 0)
    (Z.rem (Z.abs n) 5 =? 0) (Z.rem (Z.abs n) 7 =? 0) (n <? 0).
  intros b2 b3 b5 b7 isNeg e2 e3 e7 colorless power prime.
  repeat (apply elem_of_cons in Hrows as [[= -> -> ->] | Hrows]);
    [.. | by apply elem_of_nil in Hrows];
    destruct b5, b2, b3, b7, isNeg; cbn;
    (split;
     [ first [ discriminate | intros _; solve [intuition done] ]
     | first [ reflexivity | intros; reflexivity
             | intros; exfalso; solve [intuition discriminate] ] ]).
Qed.

Lemma sign_sensitivity_at_22 :
  valid_dimension 0 ∧ getColorInfo (- 22) 0 ≠ getColorInfo 22 0.
Proof.
  assert (Hd : valid_dimension 0) by (unfold valid_dimension; lia).
  split; [exact Hd |].
  intros Heq. apply (sign_sensitivity 22 0 Hd) in Heq.
  assert (H5 : ¬ (5 | 22)) by (apply rem_abs_not_divide; [lia | reflexivity]).
  assert (H3 : ¬ (3 | 22)) by (apply rem_abs_not_divide; [lia | reflexivity]).
  assert (H2 : (2 | 22)) by (by exists 11).
  tauto.
Defined.

(** X17.  The three combination colors do not depend on the dimension:
    among the numbers that are not multiples of 5, "Green" marks the
    positive multiples of 2 and 3 only and the negative multiples of 7 only,
    "Purple" the positive multiples of 2 and 7 only and the negative
    multiples of 3 only, "Orange" the positive multiples of 3 and 7 only and
    the negative multiples of 2 only. *)
Theorem combination_labels (n d : Z) :
  valid_dimension d →
  (returned_label (getColorInfo n d) = Some "Green"%string
     ↔ ¬ (5 | n) ∧ ((0 < n ∧ (2 | n) ∧ (3 | n) ∧ ¬ (7 | n))
                    ∨ (n < 0 ∧ ¬ (2 | n) ∧ ¬ (3 | n) ∧ (7 | n))))
  ∧ (returned_label (getColorInfo n d) = Some "Purple"%string
     ↔ ¬ (5 | n) ∧ ((0 < n ∧ (2 | n) ∧ ¬ (3 | n) ∧ (7 | n))
                    ∨ (n < 0 ∧ ¬ (2 | n) ∧ (3 | n) ∧ ¬ (7 | n))))
  ∧ (returned_label (getColorInfo n d) = Some "Orange"%string
     ↔ ¬ (5 | n) ∧ ((0 < n ∧ ¬ (2 | n) ∧ (3 | n) ∧ (7 | n))
                    ∨ (n < 0 ∧ (2 | n) ∧ ¬ (3 | n) ∧ ¬ (7 | n)))).
Proof.
  intros Hd.
  destruct (valid_dimension_row d Hd) as (c2 & c3 & c7 & Hrow & Hrows).
  color_tree n Hrow Hrows;
    try (assert (0 < n) by lia); try (assert (¬ 0 < n) by lia);
    try (assert (¬ n < 0) by lia);
    (split; [| split]); color_leaf.
Qed.

Lemma combination_labels_at_minus_49 :
  valid_dimension 2 ∧ returned_label (getColorInfo (-49) 2) = Some "Green"%string.
Proof.
  assert (Hd : valid_dimension 2) by (unfold valid_dimension; lia).
  split; [exact Hd |].
  destruct (combination_labels (-49) 2 Hd) as (Hgreen & _).
  apply Hgreen.
  assert (H5 : ¬ (5 | -49)) by (apply rem_abs_not_divide; [lia | reflexivity]).
  assert (H3 : ¬ (3 | -49)) by (apply rem_abs_not_divide; [lia | reflexivity]).
  assert (H2 : ¬ (2 | -49)) by (apply rem_abs_not_divide; [lia | reflexivity]).
  assert (H7 : (7 | -49)) by (by exists (-7)).
  split; [exact H5 |]. right. split; [lia |]. tauto.
Defined.

(** ** The precomputed tables *)

Lemma map_throwing_returns {A B : Type} (f : A → completion B) (l : list A) :
  (∀ x, x ∈ l → ∃ y, f x = Return y) →
  ∃ ys, map_throwing f l = Return ys
        ∧ length ys = length l
        ∧ ∀ i x, l !! i = Some x → ∃ y, ys !! i = Some y ∧ f x = Return y.
Proof.
  induction l as [| x l IH]; intros Hall.
  - exists []. split; [done |]. split; [done |]. intros i x Hx. done.
  - destruct (Hall x ltac:(by left)) as [y Hy].
    destruct IH as (ys & Hrun & Hlen & Hlookup).
    { intros x' Hx'. apply Hall. by right. }
    exists (y :: ys). cbn [map_throwing]. rewrite Hy. cbn. rewrite Hrun. cbn.
    split; [done |]. split; [cbn; by rewrite Hlen |].
    intros [| i] x' Hx'; cbn in *.
    + injection Hx' as <-. by exists y.
    + by apply Hlookup.
Qed.

Lemma map_throwing_throws {A B : Type} (f : A → completion B) (l : list A) x :
  x ∈ l → f x = Throw TypeError → map_throwing f l = Throw TypeError.
Proof.
  intros Hx Hthrow. induction l as [| x' l IH]; [by apply elem_of_nil in Hx |].
  cbn [map_throwing].
  destruct (f x') as [y | []] eqn:Hf; [| done]. cbn.
  apply elem_of_cons in Hx as [-> | Hx]; [congruence |].
  by rewrite IH.
Qed.

Lemma cell_of_returns k :
  ∃ c, cell_of k = Return c ∧ Cell.n c = k ∧ Cell.tr c = isTransparent k
       ∧ Cell.L c = L (getSplit k 0) ∧ Cell.R c = R (getSplit k 0)
       ∧ Cell.orthogonal c = orthogonal (getSplit k 0)
       ∧ getColorInfo k 0 = Return (Cell.ci c).
Proof.
  assert (Hd : valid_dimension 0) by (unfold valid_dimension; lia).
  destruct (getColorInfo_cases k 0 Hd) as (i & Hi & _).
  unfold cell_of. rewrite Hi. cbn. eexists. split; [reflexivity |]. by cbn.
Qed.

Lemma CELL_DATA_spec :
  ∃ cells, CELL_DATA = Return cells
    ∧ length cells = Z.to_nat (MAX_N + 1)
    ∧ ∀ k, 0 ≤ k ≤ MAX_N → ∃ c, index cells k = Some c ∧ cell_of k = Return c.
Proof.
  destruct (map_throwing_returns cell_of (seqZ 0 (MAX_N + 1))) as (cells & Hrun & Hlen & Hlookup).
  { intros k _. destruct (cell_of_returns k) as (c & Hc & _). by exists c. }
  exists cells. split; [exact Hrun |]. split; [by rewrite Hlen, length_seqZ |].
  intros k Hk. unfold index. destruct (Z.ltb_spec k 0); [lia |].
  destruct (Hlookup (Z.to_nat k) k) as (c & Hc & Hcell).
  { rewrite lookup_seqZ. lia. }
  exists c. split; [exact Hc | exact Hcell].
Qed.

Lemma NEG_CELL_DATA_spec :
  ∃ cells, NEG_CELL_DATA = Return cells
    ∧ length cells = Z.to_nat MAX_N
    ∧ ∀ k, - MAX_N ≤ k ≤ -1 →
        ∃ c, index cells (k + MAX_N) = Some c ∧ cell_of k = Return c.
Proof.
  destruct (map_throwing_returns (λ i, cell_of (- (i + 1))) (seqZ 0 MAX_N))
    as (cells & Hrun & Hlen & Hlookup).
  { intros i _. destruct (cell_of_returns (- (i + 1))) as (c & Hc & _). by exists c. }
  rewrite length_seqZ in Hlen.
  exists (reverse cells). unfold NEG_CELL_DATA. rewrite Hrun.
  split; [reflexivity |]. split; [by rewrite length_reverse |].
  intros k Hk. unfold index. destruct (Z.ltb_spec (k + MAX_N) 0); [lia |].
  rewrite reverse_lookup by lia.
  destruct (Hlookup (length cells - S (Z.to_nat (k + MAX_N)))%nat (- k - 1))
    as (c & Hc & Hcell).
  { rewrite lookup_seqZ. lia. }
  exists c. split; [exact Hc |]. by replace (- (- k - 1 + 1)) with k in Hcell by lia.
Qed.

Lemma ALL_DATA_cells :
  ∃ pos all,
    CELL_DATA = Return pos ∧ ALL_DATA = Return all
    ∧ length pos = Z.to_nat (MAX_N + 1)
    ∧ length all = Z.to_nat (2 * MAX_N + 1)
    ∧ ∀ k, - MAX_N ≤ k ≤ MAX_N →
        ∃ c, index all (k + MAX_N) = Some c
             ∧ (0 ≤ k → index pos k = Some c)
             ∧ cell_of k = Return c.
Proof.
  destruct CELL_DATA_spec as (pos & Hpos & Hposlen & Hposlookup).
  destruct NEG_CELL_DATA_spec as (neg & Hneg & Hneglen & Hneglookup).
  exists pos, (neg ++ pos). unfold ALL_DATA. rewrite Hpos, Hneg.
  split; [reflexivity |]. split; [reflexivity |]. split; [exact Hposlen |].
  split; [rewrite length_app, Hposlen, Hneglen; unfold MAX_N; lia |].
  intros k Hk.
  destruct (cell_of_returns k) as (c & Hc & _).
  exists c. split; [| split; [| exact Hc]].
  - unfold index. destruct (Z.ltb_spec (k + MAX_N) 0); [lia |].
    destruct (Z.lt_ge_cases k 0) as [Hnegk | Hposk].
    + destruct (Hneglookup k ltac:(lia)) as (c' & Hc' & Hcell).
      unfold index in Hc'. destruct (Z.ltb_spec (k + MAX_N) 0); [lia |].
      rewrite lookup_app_l by (rewrite Hneglen; lia). congruence.
    + destruct (Hposlookup k ltac:(lia)) as (c' & Hc' & Hcell).
      unfold index in Hc'. destruct (Z.ltb_spec k 0); [lia |].
      rewrite lookup_app_r by (rewrite Hneglen; lia).
      rewrite Hneglen. replace (Z.to_nat (k + MAX_N) - Z.to_nat MAX_N)%nat
        with (Z.to_nat k) by lia. congruence.
  - intros Hk0. destruct (Hposlookup k ltac:(lia)) as (c' & Hc' & Hcell). congruence.
Qed.

(** X18.  The tables are built without an error.  [ALL_DATA] has
    [2 * MAX_N + 1] cells listing the numbers [-MAX_N .. MAX_N] in
    ascending order (the negative half is generated from -1 downwards and
    then reversed), and every cell is the classification of its own number
    in dimension 0; [CELL_DATA] is its non-negative half. *)
Theorem ALL_DATA_ascending :
  ∃ pos all,
    CELL_DATA = Return pos ∧ ALL_DATA = Return all
    ∧ length pos = Z.to_nat (MAX_N + 1)
    ∧ length all = Z.to_nat (2 * MAX_N + 1)
    ∧ ∀ k, - MAX_N ≤ k ≤ MAX_N →
        ∃ c, index all (k + MAX_N) = Some c
             ∧ (0 ≤ k → index pos k = Some c)
             ∧ Cell.n c = k
             ∧ Cell.tr c = isTransparent k
             ∧ Cell.L c = L (getSplit k 0) ∧ Cell.R c = R (getSplit k 0)
             ∧ Cell.orthogonal c = orthogonal (getSplit k 0)
             ∧ getColorInfo k 0 = Return (Cell.ci c).
Proof.
  destruct ALL_DATA_cells as (pos & all & Hpos & Hall & Hposlen & Halllen & Hcells).
  exists pos, all. repeat (split; [assumption |]).
  intros k Hk. destruct (Hcells k Hk) as (c & Hc & Hcpos & Hcell).
  exists c. split; [exact Hc |]. split; [exact Hcpos |].
  destruct (cell_of_returns k) as (c' & Hc' & Hfields).
  assert (c' = c) by congruence. subst c'. exact Hfields.
Qed.

Lemma ALL_DATA_ascending_at_minus_3 :
  ∃ all, ALL_DATA = Return all
    ∧ ∃ c, index all (-3 + MAX_N) = Some c ∧ Cell.n c = -3.
Proof.
  destruct ALL_DATA_ascending as (pos & all & _ & Hall & _ & _ & Hcells).
  exists all. split; [exact Hall |].
  destruct (Hcells (-3)) as (c & Hc & _ & Hn & _); [unfold MAX_N; lia |].
  exists c. split; [exact Hc | exact Hn].
Defined.

Lemma map_throwing_id {A : Type} (f : A → completion A) (l : list A) :
  (∀ x, x ∈ l → f x = Return x) → map_throwing f l = Return l.
Proof.
  induction l as [| x l IH]; intros Hall; [done |].
  cbn [map_throwing]. rewrite (Hall x) by by left. cbn.
  rewrite IH; [done |]. intros x' Hx'. apply Hall. by right.
Qed.

(** Every cell of either table is the classification of its own number, and
    both tables contain the number 2. *)
Lemma base_table_cells (showNeg : bool) :
  ∃ base, (if showNeg then ALL_DATA else CELL_DATA) = Return base
    ∧ (∀ b, b ∈ base → cell_of (Cell.n b) = Return b)
    ∧ ∃ b, b ∈ base ∧ Cell.n b = 2.
Proof.
  destruct ALL_DATA_cells as (pos & all & Hpos & Hall & Hposlen & Halllen & Hcells).
  assert (Hin : ∀ (l : list Cell.t) b, b ∈ l →
            ∃ i, 0 ≤ i < Z.of_nat (length l) ∧ index l i = Some b).
  { intros l b [i Hi]%list_elem_of_lookup. exists (Z.of_nat i).
    pose proof (lookup_lt_Some _ _ _ Hi). split; [lia |].
    unfold index. destruct (Z.ltb_spec (Z.of_nat i) 0); [lia |].
    by rewrite Nat2Z.id. }
  assert (Hself : ∀ k c, cell_of k = Return c → cell_of (Cell.n c) = Return c).
  { intros k c Hc. destruct (cell_of_returns k) as (c' & Hc' & Hn & _).
    assert (c' = c) by congruence. subst c'. by rewrite Hn. }
  destruct showNeg.
  - exists all. split; [exact Hall |]. split.
    + intros b (i & Hi & Hb)%Hin. rewrite Halllen in Hi.
      destruct (Hcells (i - MAX_N)) as (c & Hc & _ & Hcell); [unfold MAX_N in *; lia |].
      replace (i - MAX_N + MAX_N) with i in Hc by lia.
      assert (c = b) by congruence. subst c. by apply (Hself (i - MAX_N)).
    + destruct (Hcells 2) as (c & Hc & _ & Hcell); [unfold MAX_N; lia |].
      destruct (cell_of_returns 2) as (c' & Hc' & Hn & _).
      assert (c' = c) by congruence. subst c'.
      exists c. split; [| exact Hn].
      unfold index in Hc. destruct (2 + MAX_N <? 0); [done |].
      by eapply list_elem_of_lookup_2.
  - exists pos. split; [exact Hpos |]. split.
    + intros b (i & Hi & Hb)%Hin. rewrite Hposlen in Hi.
      destruct (Hcells i) as (c & _ & Hc & Hcell); [unfold MAX_N in *; lia |].
      specialize (Hc ltac:(lia)). assert (c = b) by congruence. subst c.
      by apply (Hself i).
    + destruct (Hcells 2) as (c & _ & Hc & Hcell); [unfold MAX_N; lia |].
      specialize (Hc ltac:(lia)).
      destruct (cell_of_returns 2) as (c' & Hc' & Hn & _).
      assert (c' = c) by congruence. subst c'.
      exists c. split; [| exact Hn].
      unfold index in Hc. destruct (2 <? 0); [done |].
      by eapply list_elem_of_lookup_2.
Qed.



(** ** Pagination *)

(** The number of pages is the least [m] with [m * PAGE_SIZE >= length]. *)
Lemma totalPages_bounds {A : Type} (data : list A) :
  (totalPages data - 1) * PAGE_SIZE < Z.of_nat (length data) ≤ totalPages data * PAGE_SIZE.
Proof.
  unfold totalPages. change PAGE_SIZE with 140.
  unfold Qceiling, Qfloor, Qdiv, Qmult, Qinv, Qopp, inject_Z. cbn.
  rewrite Z.mul_1_r. change (Z.pos (1 * 140)) with 140.
  generalize (Z.of_nat (length data)). intros len.
  pose proof (Z.div_mod (- len) 140 ltac:(lia)) as Hdiv.
  pose proof (Z.mod_pos_bound (- len) 140 ltac:(lia)) as Hmod.
  lia.
Qed.

(** A page with a non-negative number is a window of [PAGE_SIZE] cells. *)
Lemma pageData_window {A : Type} (data : list A) (page : Z) :
  0 ≤ page →
  pageData data page
  = take (Z.to_nat PAGE_SIZE) (drop (Z.to_nat (page * PAGE_SIZE)) data).
Proof.
  intros Hpage. unfold pageData, slice. change PAGE_SIZE with 140.
  destruct (Z.ltb_spec (page * 140) 0); [lia |].
  destruct (Z.ltb_spec ((page + 1) * 140) 0); [lia |].
  destruct (Z.le_gt_cases (Z.of_nat (length data)) (page * 140)) as [Hout | Hin].
  - rewrite (drop_ge data (Z.to_nat (page * 140))) by lia.
    rewrite (drop_ge data) by lia. by rewrite !take_nil.
  - rewrite (Z.min_l (page * 140)) by lia.
    destruct (Z.le_gt_cases ((page + 1) * 140) (Z.of_nat (length data))) as [Hfull | Hlast].
    + rewrite Z.min_l by lia. f_equal. lia.
    + rewrite Z.min_r by lia.
      rewrite !take_ge; [done | |]; rewrite length_drop; lia.
Qed.

Lemma pages_prefix {A : Type} (data : list A) (m : nat) :
  concat (pageData data <$> seqZ 0 (Z.of_nat m))
  = take (m * Z.to_nat PAGE_SIZE) data.
Proof.
  induction m as [| m IH]; [done |].
  rewrite seqZ_S, fmap_app, concat_app, IH. cbn [fmap list_fmap concat].
  rewrite app_nil_r, pageData_window by lia.
  replace (Z.to_nat ((0 + Z.of_nat m) * PAGE_SIZE)) with (m * Z.to_nat PAGE_SIZE)%nat
    by (change PAGE_SIZE with 140; lia).
  rewrite take_take_drop. f_equal. lia.
Qed.

(** X20.  Pagination loses nothing and invents nothing: the pages
    [0 .. totalPages - 1], put one after the other, are the filtered data;
    each of them is non-empty and has at most [PAGE_SIZE] cells; every page
    from [totalPages] on is empty; and there are no pages exactly when
    there is no data. *)
Theorem pagination_partition {A : Type} (data : list A) :
  concat (pageData data <$> seqZ 0 (totalPages data)) = data
  ∧ (totalPages data = 0 ↔ data = [])
  ∧ (∀ page, 0 ≤ page < totalPages data →
       pageData data page ≠ []
       ∧ Z.of_nat (length (pageData data page)) ≤ PAGE_SIZE)
  ∧ (∀ page, totalPages data ≤ page → pageData data page = []).
Proof.
  pose proof (totalPages_bounds data) as Hbounds.
  assert (Hnonneg : 0 ≤ totalPages data) by (change PAGE_SIZE with 140 in Hbounds; lia).
  split; [| split; [| split]].
  - rewrite <- (Z2Nat.id (totalPages data)) by done.
    rewrite pages_prefix. apply take_ge.
    change PAGE_SIZE with 140 in *. lia.
  - change PAGE_SIZE with 140 in Hbounds. split.
    + intros Hzero. apply length_zero_iff_nil. lia.
    + intros ->. cbn in Hbounds. lia.
  - intros page Hpage. rewrite pageData_window by lia.
    change PAGE_SIZE with 140 in *. split.
    + intros Hnil. apply (f_equal length) in Hnil.
      rewrite length_take, length_drop in Hnil. cbn in Hnil. lia.
    + rewrite length_take. lia.
  - intros page Hpage. rewrite pageData_window by lia.
    rewrite drop_ge; [by rewrite take_nil |].
    change PAGE_SIZE with 140 in *. lia.
Qed.

Lemma pagination_partition_at_300 :
  0 ≤ 2 < totalPages (replicate 300 tt)
  ∧ pageData (replicate 300 tt) 2 ≠ []
  ∧ Z.of_nat (length (pageData (replicate 300 tt) 2)) ≤ PAGE_SIZE.
Proof.
  assert (Hpage : 0 ≤ 2 < totalPages (replicate 300 tt)) by (vm_compute; split; [discriminate | reflexivity]).
  split; [exact Hpage |].
  destruct (pagination_partition (replicate 300 tt)) as (_ & _ & Hpages & _).
  exact (Hpages 2 Hpage).
Defined.

(** ** The split histogram *)

Lemma lookup_increment (counts : gmap number number) key key' :
  increment counts key !! key'
  = if decide (key = key')
    then Some (add (default NaN (counts !! key)) (Num 1))
    else counts !! key'.
Proof.
  unfold increment. rewrite lookup_insert. destruct (decide (key = key')); [| done].
  by destruct (counts !! key).
Qed.

Lemma histogram_fold (data : list Cell.t) (counts : gmap number number) (seen : Z → Z) :
  (∀ c, c ∈ data → ∃ l, Cell.L c = Num l ∧ 0 ≤ l ≤ 17) →
  (∀ l, 0 ≤ l ≤ 17 → counts !! Num l = Some (Num (seen l))) →
  (∀ key, is_Some (counts !! key) → ∃ l, key = Num l ∧ 0 ≤ l ≤ 17) →
  let result := foldl (λ counts d, increment counts (Cell.L d)) counts data in
  (∀ l, 0 ≤ l ≤ 17 →
     result !! Num l
     = Some (Num (seen l + Z.of_nat (length (filter (λ c, Cell.L c = Num l) data)))))
  ∧ (∀ key, is_Some (result !! key) → ∃ l, key = Num l ∧ 0 ≤ l ≤ 17).
Proof.
  revert counts seen.
  induction data as [| c data IH]; intros counts seen Hdata Hcounts Hkeys result.
  - subst result. cbn. split; [| exact Hkeys].
    intros l Hl. rewrite Hcounts by done. do 2 f_equal. lia.
  - destruct (Hdata c ltac:(by left)) as (l0 & HL & Hl0).
    subst result. cbn [foldl].
    destruct (IH (increment counts (Cell.L c))
                (λ l, seen l + (if decide (l = l0) then 1 else 0))) as [Hres Hreskeys].
    + intros c' Hc'. apply Hdata. by right.
    + intros l Hl. rewrite lookup_increment, HL.
      destruct (decide (Num l0 = Num l)) as [[= ->] | Hne].
      * rewrite Hcounts by done. cbn. rewrite decide_True by done. done.
      * rewrite Hcounts by done. rewrite decide_False by congruence.
        do 2 f_equal. lia.
    + intros key. rewrite lookup_increment, HL.
      destruct (decide (Num l0 = key)) as [<- | Hne]; [by exists l0 | apply Hkeys].
    + split; [| exact Hreskeys].
      intros l Hl. rewrite Hres by done. do 2 f_equal.
      rewrite filter_cons, HL.
      destruct (decide (l = l0)) as [-> | Hne].
      * rewrite decide_True by done. cbn [length]. lia.
      * rewrite decide_False by congruence. lia.
Qed.

(** X21.  When every cell has an integer [L] in [0 .. 17] (as the cells of
    a valid dimension have), entry [l] of the histogram is the number of
    cells with [L = l], and the array keeps exactly its 18 entries. *)
Theorem splitDist_counts (data : list Cell.t) :
  (∀ c, c ∈ data → ∃ l, Cell.L c = Num l ∧ 0 ≤ l ≤ 17) →
  (∀ l, 0 ≤ l ≤ 17 →
     splitDist data !! Num l
     = Some (Num (Z.of_nat (length (filter (λ c, Cell.L c = Num l) data)))))
  ∧ (∀ key, is_Some (splitDist data !! key) ↔ ∃ l, key = Num l ∧ 0 ≤ l ≤ 17).
Proof.
  intros Hdata. unfold splitDist.
  set (init := list_to_map ((λ i, (Num i, Num 0)) <$> seqZ 0 18) : gmap number number).
  assert (Hinit : ∀ l, 0 ≤ l ≤ 17 → init !! Num l = Some (Num 0)).
  { intros l Hl.
    assert (Hcases : l = 0 ∨ l = 1 ∨ l = 2 ∨ l = 3 ∨ l = 4 ∨ l = 5 ∨ l = 6 ∨ l = 7
                     ∨ l = 8 ∨ l = 9 ∨ l = 10 ∨ l = 11 ∨ l = 12 ∨ l = 13 ∨ l = 14
                     ∨ l = 15 ∨ l = 16 ∨ l = 17) by lia.
    repeat (destruct Hcases as [-> | Hcases]; [by vm_compute |]).
    subst l. by vm_compute. }
  assert (Hkeys : ∀ key, is_Some (init !! key) → ∃ l, key = Num l ∧ 0 ≤ l ≤ 17).
  { intros key [x Hx]. apply elem_of_list_to_map_2 in Hx.
    apply list_elem_of_fmap in Hx as (i & [= -> _] & Hi).
    apply elem_of_seqZ in Hi. exists i. split; [done | lia]. }
  destruct (histogram_fold data init (λ _, 0) Hdata Hinit Hkeys) as [Hres Hreskeys].
  split.
  - intros l Hl. rewrite Hres by done. do 2 f_equal.
  - intros key. split; [apply Hreskeys |].
    intros (l & -> & Hl). rewrite Hres by done. by eexists.
Qed.

Lemma splitDist_counts_at_two_cells :
  let data := [ Cell.mk 0 (Num 17) (Num 0) [] None false;
                Cell.mk 210 (Num 17) (Num 0) [] None false ] in
  (∀ c, c ∈ data → ∃ l, Cell.L c = Num l ∧ 0 ≤ l ≤ 17)
  ∧ splitDist data !! Num 17
    = Some (Num (Z.of_nat (length (filter (λ c, Cell.L c = Num 17) data)))).
Proof.
  intros data.
  assert (Hdata : ∀ c, c ∈ data → ∃ l, Cell.L c = Num l ∧ 0 ≤ l ≤ 17).
  { intros c Hc. exists 17. split; [| lia].
    apply elem_of_cons in Hc as [-> | Hc]; [done |].
    apply elem_of_cons in Hc as [-> | Hc]; [done |].
    by apply elem_of_nil in Hc. }
  split; [exact Hdata |].
  apply (splitDist_counts data Hdata). lia.
Defined.

(** ** Prime bending pairs *)

Lemma primeBending_residue n :
  primeBending n = primeBending (Z.rem (Z.abs n) 210)
  ∧ 0 ≤ Z.rem (Z.abs n) 210 < 210.
Proof.
  pose proof (Z.rem_bound_pos (Z.abs n) 210 ltac:(lia) ltac:(lia)) as Hr.
  split; [| exact Hr].
  unfold primeBending. by rewrite (Z.abs_eq (Z.rem _ _)), (Z.rem_small (Z.rem _ _)) by lia.
Qed.

(** X22.  Bending is a pairing of the residues modulo 210: the
    counterpart of the counterpart is the original cycle position, the
    counterpart of a quad anchor is again a quad anchor, and [bendingPair]
    is set exactly for the quad anchors, where it equals the counterpart. *)
Theorem bending_pairs (n : Z) :
  let b := primeBending n in
  let b' := primeBending (bendingCounterpart b) in
  cyclePos b' = bendingCounterpart b
  ∧ bendingCounterpart b' = cyclePos b
  ∧ isCorner b' = isCorner b
  ∧ bendingPair b = (if isCorner b then Some (bendingCounterpart b) else None).
Proof.
  destruct (primeBending_residue n) as [-> Hr].
  generalize dependent (Z.rem (Z.abs n) 210). intros r Hr.
  assert (Hall : forallb (λ r,
            let b := primeBending r in
            let b' := primeBending (bendingCounterpart b) in
            bool_decide (cyclePos b' = bendingCounterpart b
                         ∧ bendingCounterpart b' = cyclePos b
                         ∧ isCorner b' = isCorner b
                         ∧ bendingPair b
                           = (if isCorner b then Some (bendingCounterpart b) else None)))
          (seqZ 0 210) = true) by (vm_compute; reflexivity).
  pose proof (forallb_seqZ _ _ _ r Hall ltac:(lia)) as Hcheck.
  by apply bool_decide_eq_true in Hcheck.
Qed.

(** ** The detail panel *)


